(** * amazon_scraper.py: the product extraction core

    A shallow embedding of [extract_product_data] of [src/amazon_scraper.py]
    and of the string operations it uses, with the properties of the
    field extraction loops, the availability filter, the clean-up of the
    accepted values and the bounded collection of records.

    Modelling choices.
    - A Python [str] is a Rocq [string]; one [ascii] stands for one code
      point below 256, on which [str.isspace] and [str.lower] are written
      out below.  Text with larger code points is outside the model.
    - A BeautifulSoup [Tag] (the parsed document, a product item, a
      matched element) is known through what the code reads of it: its
      [text], its attribute dictionary and the answer of [select] to a
      selector, which is a list of tags or an exception.
    - Exceptions are the instances of Python's [Exception], the ones an
      [except Exception] clause catches.
    - Calls to the selector engine, to [logging] and to [print] are
      recorded, in order, in the event list of a writer monad.
    - The rest of the script ([build_search_url], [fetch_search_results],
      [display_products], [save_product_links], [main]) is modelled in
      the same way; what a run gets from the outside (arguments, input,
      the answer of the site, the parser, the file system, the clock) is
      a record of type [World]. *)

From Stdlib Require Import Ascii.
From stdpp Require Import base option list strings gmap pretty.

(** ** Python strings *)

Module PyStr.

(** [str.isspace] on code points below 256: TAB..CR, FS..US, space,
    NEL (0x85) and the no-break space (0xA0). *)
Definition isspace (c : ascii) : bool :=
  let n := nat_of_ascii c in
  ((9 <=? n) && (n <=? 13)) || ((28 <=? n) && (n <=? 32))
  || (n =? 133) || (n =? 160).

(** [str.lower] on one code point below 256: A..Z and the Latin-1
    capitals 0xC0..0xDE (except the multiplication sign 0xD7) move up
    by 32; everything else is unchanged. *)
Definition lower_char (c : ascii) : ascii :=
  let n := nat_of_ascii c in
  if ((65 <=? n) && (n <=? 90))
     || ((192 <=? n) && (n <=? 222) && negb (n =? 215))
  then ascii_of_nat (n + 32) else c.

Fixpoint lower (s : string) : string :=
  match s with
  | EmptyString => EmptyString
  | String c s' => String (lower_char c) (lower s')
  end.

Fixpoint lstrip (s : string) : string :=
  match s with
  | EmptyString => EmptyString
  | String c s' => if isspace c then lstrip s' else s
  end.

Fixpoint rstrip (s : string) : string :=
  match s with
  | EmptyString => EmptyString
  | String c s' =>
      match rstrip s' with
      | EmptyString => if isspace c then EmptyString else String c EmptyString
      | r => String c r
      end
  end.

(** [s.strip()] *)
Definition strip (s : string) : string := rstrip (lstrip s).

(** [s.startswith(p)] *)
Definition startswith (s p : string) : bool := String.prefix p s.

(** [sub in s] *)
Fixpoint contains (sub s : string) : bool :=
  String.prefix sub s
  || match s with
     | EmptyString => false
     | String _ s' => contains sub s'
     end.

(** [s[:n]] for a non-negative [n] *)
Definition slice_to (n : nat) (s : string) : string := String.substring 0 n s.

(** [s.split()]: the maximal runs of non-whitespace characters, in
    order.  [word] is the run being read. *)
Fixpoint split_from (word s : string) : list string :=
  match s with
  | EmptyString => if decide (word = "") then [] else [word]
  | String c s' =>
      if isspace c
      then (if decide (word = "") then split_from "" s'
            else word :: split_from "" s')
      else split_from (word +:+ String c "") s'
  end.

Definition split (s : string) : list string := split_from "" s.

(** [sep.join(words)] *)
Definition join (sep : string) (words : list string) : string :=
  String.concat sep words.

End PyStr.

(** ** Exceptions, events and the writer monad *)

Inductive exn : Type :=
  | Exception (msg : string).

Definition str_exn (e : exn) : string :=
  match e with Exception msg => msg end.

Inductive outcome (A : Type) : Type :=
  | Return (a : A)
  | Raise (e : exn).
Arguments Return {A} a.
Arguments Raise {A} e.

Inductive level : Type := DEBUG | INFO | WARNING.

(** What the function does besides computing its result.  [item] is the
    zero-based position of the product item in the loop, [None] for the
    document itself. *)
Inductive event : Type :=
  | CallSelect (item : option nat) (selector : string)
  | CallSelectOne (item : nat) (selector : string)
  | Logged (lv : level) (msg : string)
  | Printed (msg : string).

Definition M (A : Type) : Type := (outcome A * list event)%type.

Definition ret {A} (a : A) : M A := (Return a, []).

Definition bind {A B} (m : M A) (k : A -> M B) : M B :=
  match m with
  | (Return a, evs) => let '(r, evs') := k a in (r, evs ++ evs')
  | (Raise e, evs) => (Raise e, evs)
  end.

Definition emit (ev : event) : M unit := (Return tt, [ev]).

Definition lift {A} (r : outcome A) : M A := (r, []).

(** [try: body except Exception as e: handler(e)] *)
Definition try_except {A} (body : M A) (handler : exn -> M A) : M A :=
  match body with
  | (Return a, evs) => (Return a, evs)
  | (Raise e, evs) => let '(r, evs') := handler e in (r, evs ++ evs')
  end.

Notation "x <- m ;; k" := (bind m (fun x => k))
  (at level 100, m at next level, right associativity).
Notation "m ;;; k" := (bind m (fun _ => k))
  (at level 100, right associativity).

Definition result {A} (m : M A) : outcome A := fst m.
Definition events {A} (m : M A) : list event := snd m.

Definition log (lv : level) (msg : string) : M unit := emit (Logged lv msg).
Definition print (msg : string) : M unit := emit (Printed msg).

(** ** Tags *)

Set Warnings "-register-all".

Inductive Tag : Type :=
  mkTag (text : string) (attrs : gmap string string)
        (select : string -> outcome (list Tag)).

Definition text (t : Tag) : string :=
  match t with mkTag x _ _ => x end.
Definition attrs (t : Tag) : gmap string string :=
  match t with mkTag _ a _ => a end.
Definition select (t : Tag) : string -> outcome (list Tag) :=
  match t with mkTag _ _ f => f end.

(** [tag.has_attr(k)] and [tag[k]]; the latter raises [KeyError] on a
    missing key. *)
Definition has_attr (t : Tag) (k : string) : bool := bool_decide (is_Some (attrs t !! k)).
Definition getitem (t : Tag) (k : string) : outcome string :=
  match attrs t !! k with
  | Some v => Return v
  | None => Raise (Exception k)
  end.

(** [tag.select_one(sel)]: the first element [select] finds, or [None]. *)
Definition select_one (t : Tag) (sel : string) : outcome (option Tag) :=
  match select t sel with
  | Return els => Return (head els)
  | Raise e => Raise e
  end.

Definition call_select (i : option nat) (t : Tag) (sel : string) : M (list Tag) :=
  emit (CallSelect i sel) ;;; lift (select t sel).

Definition call_select_one (i : nat) (t : Tag) (sel : string) : M (option Tag) :=
  emit (CallSelectOne i sel) ;;; lift (select_one t sel).

(** ** Constants of the module and of [extract_product_data] *)

Definition MAX_PRODUCTS : nat := 10.
Definition MAX_NAME_LENGTH : nat := 70.

Definition name_selectors : list string :=
  [ ".a-size-medium.a-color-base.a-text-normal";
    ".a-link-normal .a-text-normal";
    "h2 a span";
    ".a-size-base-plus.a-color-base.a-text-normal";
    "h2 .a-link-normal" ].

Definition url_selectors : list string :=
  [ "h2 a.a-link-normal";
    ".a-link-normal.s-underline-text";
    ".a-link-normal.s-no-outline" ].

Definition availability_selectors : list string :=
  [ ".a-color-success";
    ".a-color-price";
    ".a-color-base.a-text-bold";
    ".a-box-inner .a-section span";
    ".a-spacing-small span.a-text-bold";
    "#availability span";
    ".a-section.a-spacing-none.a-spacing-top-micro .a-row" ].

Definition keywords : list string :=
  [ "stock"; "deliver"; "ship"; "arrive"; "available"; "sold"; "unavailable" ].

Definition item_selector : string :=
  "div.s-result-item[data-component-type='s-search-result']".

Definition NO_NAME : string := "N/A".
Definition NO_URL : string := "No URL available".
Definition NO_AVAILABILITY : string := "No availability info".

(** The dictionary appended to [products]; its five keys are fixed. *)
Record Product : Type := mkProduct {
  name : string;
  display_name : string;
  price : string;
  availability : string;
  url : string
}.

(** ** The loops of [extract_product_data] *)

(** [f"Product {i+1}: {what} using selector: {selector}"] *)
Definition found_msg (i : nat) (what selector : string) : string :=
  "Product " +:+ pretty (i + 1) +:+ ": Found " +:+ what
    +:+ " using selector: " +:+ selector.

Definition failed_msg (i : nat) (what : string) : string :=
  "Product " +:+ pretty (i + 1) +:+ ": Failed to extract " +:+ what
    +:+ " with any selector".

(** [for selector in name_selectors: ...], lines 152-157.  [nm] is the
    variable [name] on entry. *)
Fixpoint name_loop (i : nat) (item : Tag) (selectors : list string)
    (nm : string) : M string :=
  match selectors with
  | [] => ret nm
  | selector :: rest =>
      name_elem <- call_select_one i item selector ;;
      match name_elem with
      | Some el =>
          log INFO (found_msg i "name" selector) ;;;
          ret (PyStr.strip (text el))
      | None => name_loop i item rest nm
      end
  end.

(** Lines 167-171: a relative URL is made absolute. *)
Definition absolute_url (relative_url : string) : string :=
  if PyStr.startswith relative_url "/"
  then "https://www.amazon.com" +:+ relative_url
  else relative_url.

(** [for selector in url_selectors: ...], lines 163-173.  [u] is the
    variable [url]; [None] is Python's [None]. *)
Fixpoint url_loop (i : nat) (item : Tag) (selectors : list string)
    (u : option string) : M (option string) :=
  match selectors with
  | [] => ret u
  | selector :: rest =>
      url_elem <- call_select_one i item selector ;;
      match url_elem with
      | Some el =>
          if has_attr el "href" then
            relative_url <- lift (getitem el "href") ;;
            log INFO (found_msg i "URL" selector) ;;;
            ret (Some (absolute_url relative_url))
          else url_loop i item rest u
      | None => url_loop i item rest u
      end
  end.

(** [not url] for [url] being [None] or a string. *)
Definition not_url (u : option string) : bool :=
  match u with
  | None => true
  | Some s => bool_decide (s = "")
  end.

(** The test of line 203 on the stripped text of a candidate. *)
Definition accepted (txt : string) : bool :=
  existsb (fun keyword => PyStr.contains keyword (PyStr.lower txt)) keywords
  && (3 <? String.length txt).

(** [for avail_elem in avail_elems: ...], lines 199-206.  [av] is the
    variable [availability]. *)
Fixpoint elems_loop (i : nat) (selector : string) (avail_elems : list Tag)
    (av : string) : M string :=
  match avail_elems with
  | [] => ret av
  | avail_elem :: rest =>
      let txt := PyStr.strip (text avail_elem) in
      if accepted txt then
        log INFO (found_msg i "availability" selector) ;;;
        ret txt
      else elems_loop i selector rest av
  end.

(** The [try] statement of lines 197-210 for one selector.  It yields the
    new value of [availability] and whether line 208 leaves the loop;
    nothing is assigned before an exception can be raised, so the handler
    goes on with the old value. *)
Definition try_selector (i : nat) (item : Tag) (selector : string)
    (av : string) : M (string * bool) :=
  try_except
    (avail_elems <- call_select (Some i) item selector ;;
     av' <- elems_loop i selector avail_elems av ;;
     ret (av', bool_decide (av' <> NO_AVAILABILITY)))
    (fun e =>
       log DEBUG ("Error with availability selector " +:+ selector
                  +:+ ": " +:+ str_exn e) ;;;
       ret (av, false)).

(** [for selector in availability_selectors: ...], lines 196-210. *)
Fixpoint availability_loop (i : nat) (item : Tag) (selectors : list string)
    (av : string) : M string :=
  match selectors with
  | [] => ret av
  | selector :: rest =>
      step <- try_selector i item selector av ;;
      if step.2 then ret step.1 else availability_loop i item rest step.1
  end.

(** Lines 213-218: the clean-up of the availability text. *)
Definition clean_availability (av : string) : string :=
  if bool_decide (av <> NO_AVAILABILITY) then
    let av := PyStr.join " " (PyStr.split av) in
    if 30 <? String.length av then PyStr.slice_to 30 av +:+ "..." else av
  else av.

(** Lines 224-227. *)
Definition truncate_name (nm : string) : string :=
  if MAX_NAME_LENGTH <? String.length nm
  then PyStr.slice_to MAX_NAME_LENGTH nm +:+ "..."
  else nm.

(** The body of the [try] of lines 133-235 for the item at position [i]. *)
Definition process_item (i : nat) (item : Tag) : M Product :=
  nm <- name_loop i item name_selectors NO_NAME ;;
  (if bool_decide (nm = NO_NAME) then log WARNING (failed_msg i "name")
   else ret tt) ;;;
  u <- url_loop i item url_selectors None ;;
  u <- (if not_url u then log WARNING (failed_msg i "URL") ;;; ret NO_URL
        else ret (default "" u)) ;;
  price_elem <- call_select_one i item ".a-price .a-offscreen" ;;
  let pr := match price_elem with
            | Some el => PyStr.strip (text el)
            | None => "N/A"
            end in
  av <- availability_loop i item availability_selectors NO_AVAILABILITY ;;
  let av := clean_availability av in
  (if bool_decide (av = NO_AVAILABILITY)
   then log WARNING (failed_msg i "availability") else ret tt) ;;;
  ret {| name := nm; display_name := truncate_name nm; price := pr;
         availability := av; url := u |}.

(** [for i, item in enumerate(product_items[:MAX_PRODUCTS]): try: ...
    except Exception as e: print(...); continue], lines 132-238. *)
Fixpoint items_loop (i : nat) (items : list Tag) (products : list Product)
    : M (list Product) :=
  match items with
  | [] => ret products
  | item :: rest =>
      products <- try_except
        (p <- process_item i item ;; ret (products ++ [p]))
        (fun e =>
           print ("Error extracting product data: " +:+ str_exn e) ;;;
           ret products) ;;
      items_loop (S i) rest products
  end.

Section Extract.

(** [BeautifulSoup(html_content, "html.parser")]: the parser of the
    bs4 library, which yields the document's tag or raises. *)
Variable BeautifulSoup : string -> outcome Tag.

Definition extract_product_data (html_content : string) : M (list Product) :=
  if bool_decide (html_content = "") then ret []
  else
    soup <- lift (BeautifulSoup html_content) ;;
    product_items <- call_select None soup item_selector ;;
    log INFO ("Found " +:+ pretty (length product_items)
              +:+ " product items on the page.") ;;;
    items_loop 0 (take MAX_PRODUCTS product_items) [].

End Extract.

(** ** [build_search_url] and [urllib.parse.urlencode] *)

Module UrlLib.

(** The bytes [quote] never escapes: letters, digits and [_.-~]. *)
Definition always_safe (c : ascii) : bool :=
  let n := nat_of_ascii c in
  ((65 <=? n) && (n <=? 90)) || ((97 <=? n) && (n <=? 122))
  || ((48 <=? n) && (n <=? 57))
  || (n =? 95) || (n =? 46) || (n =? 45) || (n =? 126).

Definition hex_digit (d : nat) : ascii :=
  if d <? 10 then ascii_of_nat (48 + d) else ascii_of_nat (55 + d).

(** ['%{:02X}'.format(b)] *)
Definition percent (b : nat) : string :=
  String "%" (String (hex_digit (b / 16)) (String (hex_digit (b mod 16)) "")).

(** [c.encode('utf-8')] for a code point below 256. *)
Definition utf8 (c : ascii) : list nat :=
  let n := nat_of_ascii c in
  if n <? 128 then [n] else [192 + n / 64; 128 + n mod 64].

(** [quote_plus] on one character: a space becomes a plus sign, a safe
    character stays, and any other one becomes the escapes of its UTF-8
    bytes. *)
Definition quote_plus_char (c : ascii) : string :=
  if bool_decide (c = " "%char) then "+"
  else if always_safe c then String c ""
  else String.concat "" (percent <$> utf8 c).

(** [quote_plus(s)] with the default [safe=''] *)
Fixpoint quote_plus (s : string) : string :=
  match s with
  | EmptyString => EmptyString
  | String c s' => quote_plus_char c +:+ quote_plus s'
  end.

(** [urlencode(params)] for a dictionary of strings, given as its items
    in insertion order. *)
Definition urlencode (params : list (string * string)) : string :=
  String.concat "&"
    ((fun kv => quote_plus kv.1 +:+ "=" +:+ quote_plus kv.2) <$> params).

End UrlLib.

Definition BASE_URL : string := "https://www.amazon.com/s".

(** Lines 74-80. *)
Definition build_search_url (search_term : string) : string :=
  BASE_URL +:+ "?"
  +:+ UrlLib.urlencode [ ("k", search_term); ("ref", "nb_sb_noss") ].

(** ** The command-line program *)

(** What can leave a function of the program: an instance of
    [Exception], or the [KeyboardInterrupt] of the user, which an
    [except Exception] clause does not catch. *)
Inductive signal : Type :=
  | Error (e : exn)
  | KeyboardInterrupt.

Inductive completion (A : Type) : Type :=
  | Done (a : A)
  | Throw (s : signal).
Arguments Done {A} a.
Arguments Throw {A} s.

(** The calls the program makes to the outside, in order; a call is
    recorded when it is made, whether it returns or raises.  A table is
    handed to [console.print] with its title, its columns (header, style,
    width) and the rows it has then. *)
Inductive io_event : Type :=
  | Stdout (text : string)
  | ConsoleText (markup : string)
  | ConsoleTable (title : string) (columns : list (string * string * nat))
      (rows : list (string * string * string))
  | Prompt (text : string)
  | Sleep
  | HttpGet (url : string) (headers : gmap string string)
  | FileOpen (path : string)
  | FileWrite (text : string)
  | FileClose
  | LogInfo (msg : string)
  | LogError (msg : string)
  | Extraction (ev : event).

Definition IO (A : Type) : Type := (completion A * list io_event)%type.

Definition io_ret {A} (a : A) : IO A := (Done a, []).

Definition io_bind {A B} (m : IO A) (k : A -> IO B) : IO B :=
  match m with
  | (Done a, evs) => let '(r, evs') := k a in (r, evs ++ evs')
  | (Throw s, evs) => (Throw s, evs)
  end.

Definition io_emit (ev : io_event) : IO unit := (Done tt, [ev]).

Definition io_lift {A} (r : completion A) : IO A := (r, []).

Definition io_result {A} (m : IO A) : completion A := fst m.
Definition io_events {A} (m : IO A) : list io_event := snd m.

(** [try: body except Exception as e: handler(e)]: a
    [KeyboardInterrupt] passes through. *)
Definition io_try_except {A} (body : IO A) (handler : exn -> IO A) : IO A :=
  match body with
  | (Throw (Error e), evs) => let '(r, evs') := handler e in (r, evs ++ evs')
  | other => other
  end.

(** [try: body except KeyboardInterrupt: interrupted
    except Exception as e: handler(e)] *)
Definition io_try_except2 {A} (body : IO A) (interrupted : IO A)
    (handler : exn -> IO A) : IO A :=
  match body with
  | (Done a, evs) => (Done a, evs)
  | (Throw KeyboardInterrupt, evs) =>
      let '(r, evs') := interrupted in (r, evs ++ evs')
  | (Throw (Error e), evs) => let '(r, evs') := handler e in (r, evs ++ evs')
  end.

Notation "x <~ m ;; k" := (io_bind m (fun x => k))
  (at level 100, m at next level, right associativity).
Notation "m ;;~ k" := (io_bind m (fun _ => k))
  (at level 100, right associativity).

(** An operation that returns or raises an [Exception]. *)
Definition io_outcome {A} (r : outcome A) : IO A :=
  (match r with
   | Return a => Done a
   | Raise e => Throw (Error e)
   end, []).

(** A call of [extract_product_data] inside the program. *)
Definition run_extraction {A} (m : M A) : IO A :=
  (match result m with
   | Return a => Done a
   | Raise e => Throw (Error e)
   end,
   Extraction <$> events m).

Definition nl : string := String "010" "".

(** What [requests.get] followed by [raise_for_status] comes to: the text
    of the response, a [RequestException] (network failure, timeout or an
    HTTP status of 400 and above), or something else leaving the call. *)
Inductive http_result : Type :=
  | Response (text : string)
  | RequestException (msg : string)
  | Crash (s : signal).

(** What the program gets from the outside in one run.  [print] and
    [logging] return; every other call returns or raises as the run
    has it. *)
Record World : Type := mkWorld {
  (* sys.argv *)
  argv : list string;
  (* what input(...) gives *)
  user_input : completion string;
  (* get_random_user_agent() *)
  user_agent : string;
  (* console.print(markup): rich raises MarkupError on a malformed tag *)
  console_print : string -> completion unit;
  (* console.print(table) for a table with these rows *)
  console_table : list (string * string * string) -> completion unit;
  (* time.sleep(delay) *)
  sleep : completion unit;
  (* requests.get(url, headers=headers, timeout=...) and raise_for_status *)
  requests_get : string -> gmap string string -> http_result;
  (* BeautifulSoup(html_content, "html.parser") *)
  BeautifulSoup : string -> outcome Tag;
  (* open(path, "w", encoding="utf-8") *)
  open_file : string -> outcome unit;
  (* f.write(text), for the write that follows [n] earlier ones *)
  file_write : nat -> string -> outcome unit;
  (* the close of the file when the with block is left *)
  file_close : outcome unit;
  (* time.strftime('%Y-%m-%d %H:%M:%S') *)
  strftime : string
}.

(** [console.print(markup)] *)
Definition console (w : World) (markup : string) : IO unit :=
  io_emit (ConsoleText markup) ;;~ io_lift (console_print w markup).

(** Lines 57-71. *)
Definition get_headers (w : World) : gmap string string :=
  list_to_map
    [ ("User-Agent", user_agent w);
      ("Accept", "text/html,application/xhtml+xml,application/xml;q=0.9,image/avif,image/webp,*/*;q=0.8");
      ("Accept-Language", "en-US,en;q=0.5");
      ("Accept-Encoding", "gzip, deflate, br");
      ("Connection", "keep-alive");
      ("Upgrade-Insecure-Requests", "1");
      ("Sec-Fetch-Dest", "document");
      ("Sec-Fetch-Mode", "navigate");
      ("Sec-Fetch-Site", "none");
      ("Sec-Fetch-User", "?1");
      ("Cache-Control", "max-age=0") ].

(** Lines 83-107.  The result is [None] for Python's [None].  Only a
    [RequestException] is caught; what leaves the sleep or the request
    otherwise leaves the function. *)
Definition fetch_search_results (w : World) (search_term : string)
    : IO (option string) :=
  let url := build_search_url search_term in
  let headers := get_headers w in
  io_emit Sleep ;;~
  io_lift (sleep w) ;;~
  io_emit (HttpGet url headers) ;;~
  match requests_get w url headers with
  | Response txt => io_ret (Some txt)
  | RequestException msg =>
      io_emit (Stdout ("Error fetching search results: " +:+ msg)) ;;~
      io_ret None
  | Crash s => io_lift (Throw s)
  end.

(** The columns of lines 259-261: header, style and width. *)
Definition table_columns : list (string * string * nat) :=
  [ ("Name", "cyan", 50); ("Price", "green", 8); ("Availability", "yellow", 20) ].

(** Lines 243-272. *)
Definition display_products (w : World) (products : list Product) : IO unit :=
  match products with
  | [] =>
      console w
        (nl +:+ "[bold red]No products found![/bold red] Please try another search term.")
  | _ =>
      let rows :=
        (fun product =>
           (display_name product, price product, availability product))
        <$> products in
      io_emit (ConsoleTable "Amazon Search Results" table_columns rows) ;;~
      io_lift (console_table w rows)
  end.

(** Lines 275-287. *)
Definition show_help : IO unit :=
  io_emit (Stdout (nl +:+ "Amazon Product Scraper - Help")) ;;~
  io_emit (Stdout "==============================") ;;~
  io_emit (Stdout "Description: Scrapes Amazon for product information based on a search term") ;;~
  io_emit (Stdout (nl +:+ "Usage:")) ;;~
  io_emit (Stdout "  python amazon_scraper.py [options]") ;;~
  io_emit (Stdout (nl +:+ "Options:")) ;;~
  io_emit (Stdout "  --help     Show this help message and exit") ;;~
  io_emit (Stdout "  --verbose  Enable detailed logging output") ;;~
  io_emit (Stdout (nl +:+ "Example:")) ;;~
  io_emit (Stdout "  python amazon_scraper.py --verbose") ;;~
  io_emit (Stdout "  python amazon_scraper.py").

(** [f.write(text)], the write that follows [n] earlier ones. *)
Definition write (w : World) (n : nat) (text : string) : IO unit :=
  io_emit (FileWrite text) ;;~ io_outcome (file_write w n text).

(** [for i, product in enumerate(products, 1): ...], lines 303-307, from
    the number [i] on, [n] writes having been made. *)
Fixpoint write_products (w : World) (i n : nat) (products : list Product)
    : IO unit :=
  match products with
  | [] => io_ret tt
  | product :: rest =>
      write w n (pretty i +:+ ". " +:+ name product +:+ nl) ;;~
      write w (n + 1) ("   URL: " +:+ url product +:+ nl) ;;~
      write w (n + 2) ("   Price: " +:+ price product +:+ nl) ;;~
      write w (n + 3) ("   Availability: " +:+ availability product
                       +:+ nl +:+ nl) ;;~
      write_products w (S i) (n + 4) rest
  end.

(** [with open(...) as f: body], once the file is open: the file is
    closed when the block is left, by its end or by an exception, and an
    exception of the close takes the place of the one of the block. *)
Definition closing (w : World) (body : IO unit) : IO unit :=
  let '(r, evs) := body in
  (match file_close w, r with
   | Raise e, _ => Throw (Error e)
   | Return _, r => r
   end, evs ++ [FileClose]).

(** Lines 290-313. *)
Definition save_product_links (w : World) (products : list Product)
    (search_term : string) : IO unit :=
  io_try_except
    (io_emit (FileOpen "product_links.txt") ;;~
     io_outcome (open_file w "product_links.txt") ;;~
     closing w
       (write w 0 ("Product links for search term: " +:+ search_term
                   +:+ nl) ;;~
        write w 1 ("Search time: " +:+ strftime w +:+ nl +:+ nl) ;;~
        write_products w 1 2 products) ;;~
     io_emit (LogInfo ("Successfully saved " +:+ pretty (length products)
                       +:+ " product links to product_links.txt")) ;;~
     io_emit (Stdout (nl +:+ "Product links saved to 'product_links.txt'")))
    (fun e =>
       io_emit (LogError ("Failed to save product links: " +:+ str_exn e)) ;;~
       io_emit (Stdout (nl +:+ "Error saving product links: " +:+ str_exn e))).

(** [not html_content] for [None] or a string. *)
Definition not_html (html_content : option string) : bool :=
  match html_content with
  | None => true
  | Some s => bool_decide (s = "")
  end.

(** The markup of lines 329, 339, 340, 359 and 361. *)
Definition banner : string :=
  "[bold blue]===== Amazon Product Scraper =====" +:+ nl +:+ "[/bold blue]".
Definition searching (search_term : string) : string :=
  nl +:+ "Searching for [bold]" +:+ search_term +:+ "[/bold] on Amazon.com...".
Definition few_seconds : string := "This may take a few seconds..." +:+ nl.
Definition cancelled : string :=
  nl +:+ "[bold yellow]Search cancelled by user.[/bold yellow]".
Definition unexpected (e : exn) : string :=
  nl +:+ "[bold red]An unexpected error occurred:[/bold red] " +:+ str_exn e.

(** The body of the [try] of [main], lines 332-356. *)
Definition main_body (w : World) : IO unit :=
  io_emit (Prompt "Enter product keyword to search: ") ;;~
  line <~ io_lift (user_input w) ;;
  let search_term := PyStr.strip line in
  if bool_decide (search_term = "") then
    console w "[bold red]Error:[/bold red] Search term cannot be empty!"
  else
    console w (searching search_term) ;;~
    console w few_seconds ;;~
    html_content <~ fetch_search_results w search_term ;;
    if not_html html_content then
      console w "[bold red]Failed to fetch search results.[/bold red] Please try again later."
    else
      io_emit (LogInfo ("Extracting product data for search term: "
                        +:+ search_term)) ;;~
      products <~ run_extraction
                    (extract_product_data (BeautifulSoup w)
                       (default "" html_content)) ;;
      io_emit (LogInfo ("Found " +:+ pretty (length products)
                        +:+ " products to display")) ;;~
      display_products w products ;;~
      match products with
      | [] => io_ret tt
      | _ => save_product_links w products search_term
      end.

(** Lines 316-361. *)
Definition main (w : World) : IO unit :=
  if bool_decide ("--help" ∈ argv w) then show_help
  else
    (if bool_decide ("--verbose" ∈ argv w)
     then io_emit (Stdout "Verbose logging enabled") else io_ret tt) ;;~
    console w banner ;;~
    io_try_except2 (main_body w)
      (console w cancelled)
      (fun e => console w (unexpected e)).

(** ** Vocabulary of the properties *)

(** The selectors handed to the selector engine, in call order. *)
Definition selector_of (ev : event) : option string :=
  match ev with
  | CallSelect _ sel | CallSelectOne _ sel => Some sel
  | Logged _ _ | Printed _ => None
  end.

Definition selector_calls (evs : list event) : list string := omap selector_of evs.

(** A rule is passed over when its selector is applied without an
    exception and finds no element, or none that is [usable]. *)
Definition passed_over (usable : Tag -> bool) (item : Tag) (sel : string) : Prop :=
  exists r, select_one item sel = Return r /\ from_option usable false r = false.

(** [sel], at position [k] of [selectors], is the first rule that finds a
    [usable] element, [el]. *)
Definition first_usable (usable : Tag -> bool) (item : Tag)
    (selectors : list string) (k : nat) (sel : string) (el : Tag) : Prop :=
  selectors !! k = Some sel
  /\ select_one item sel = Return (Some el)
  /\ usable el = true
  /\ Forall (passed_over usable item) (take k selectors).

Definition any_element (el : Tag) : bool := true.
Definition has_href (el : Tag) : bool := has_attr el "href".

(** The stripped texts of the elements one availability rule finds; a
    rule that raises contributes none. *)
Definition rule_candidates (item : Tag) (selector : string) : list string :=
  match select item selector with
  | Return els => (fun el => PyStr.strip (text el)) <$> els
  | Raise _ => []
  end.

(** All candidates, rule after rule, each rule's elements in the order
    [select] lists them. *)
Definition candidates (item : Tag) (selectors : list string) : list string :=
  concat (rule_candidates item <$> selectors).

(** The rules up to and including the first one with an accepted
    candidate; all of them when there is none. *)
Fixpoint scanned (item : Tag) (selectors : list string) : list string :=
  match selectors with
  | [] => []
  | selector :: rest =>
      match List.find accepted (rule_candidates item selector) with
      | Some _ => [selector]
      | None => selector :: scanned item rest
      end
  end.

(** The record of an item, when its processing does not raise. *)
Definition record_of (item : Tag) : option Product :=
  match result (process_item 0 item) with
  | Return p => Some p
  | Raise _ => None
  end.

(** Lines 175-177 as a function of the loop's [url]. *)
Definition url_field (u : option string) : string :=
  if not_url u then NO_URL else default "" u.

(** Collapsing as the specification words it: every maximal run of
    whitespace characters becomes one space.  To be compared with
    [" ".join(s.split())] of the source. *)
Fixpoint collapse_runs (s : string) : string :=
  match s with
  | EmptyString => EmptyString
  | String c s' =>
      if PyStr.isspace c then
        match s' with
        | EmptyString => " "
        | String c' _ =>
            if PyStr.isspace c' then collapse_runs s'
            else String " " (collapse_runs s')
        end
      else String c (collapse_runs s')
  end.

(** The first-match reading of a field's loop: once [sel], at position
    [k], is the first selector that finds an element, the loop has called
    the selector engine for the first [k+1] selectors and no other. *)
Definition stops_at_first_match {A} (loop : Tag -> list string -> M A) : Prop :=
  forall item selectors k sel el,
    first_usable any_element item selectors k sel el ->
    selector_calls (events (loop item selectors)) = take (S k) selectors.

(** The per-rule reading of failures: a rule whose application raises
    counts as a rule that matched nothing. *)
Definition raising_rule_skipped {A} (loop : Tag -> list string -> M A) : Prop :=
  forall item selector rest e,
    select item selector = Raise e ->
    result (loop item (selector :: rest)) = result (loop item rest).

(** The exception [e] leaves the processing of the item at position [i]
    and the handler of the loop over the items takes it: the item has no
    record, the handler prints the failure, and the loop goes on with the
    next item and the records it had. *)
Definition entry_skipped (i : nat) (item : Tag) (e : exn) : Prop :=
  result (process_item i item) = Raise e
  /\ record_of item = None
  /\ forall rest products,
       result (items_loop i (item :: rest) products)
       = result (items_loop (S i) rest products)
       /\ Printed ("Error extracting product data: " +:+ str_exn e)
            ∈ events (items_loop i (item :: rest) products).

(** The reading of the URL field without exception for the empty string:
    the [href] is made absolute when it starts with a slash and is kept
    as it is otherwise. *)
Definition href_resolved_or_kept : Prop :=
  forall i item k sel el href p,
    first_usable has_href item url_selectors k sel el ->
    attrs el !! "href" = Some href ->
    result (process_item i item) = Return p ->
    url p = if PyStr.startswith href "/"
            then "https://www.amazon.com" +:+ href else href.

(** The characters an encoded query value is made of. *)
Definition query_char (c : ascii) : bool :=
  UrlLib.always_safe c || bool_decide (c = "+"%char) || bool_decide (c = "%"%char).

Definition hex_value (c : ascii) : option nat :=
  let n := nat_of_ascii c in
  if (48 <=? n) && (n <=? 57) then Some (n - 48)
  else if (65 <=? n) && (n <=? 70) then Some (n - 55)
  else None.

(** One escape [%XY] at the head of a string: its byte and what follows. *)
Definition unescape_head (s : string) : option (nat * string) :=
  match s with
  | String "%" (String h (String l r)) =>
      match hex_value h, hex_value l with
      | Some x, Some y => Some (16 * x + y, r)
      | _, _ => None
      end
  | _ => None
  end.

(** The character an encoded string starts with, and what follows it:
    the reading of [quote_plus] backwards, one character at a time. *)
Definition unquote_head (s : string) : option (ascii * string) :=
  match s with
  | EmptyString => None
  | String c r =>
      if bool_decide (c = "+"%char) then Some (" "%char, r)
      else if bool_decide (c = "%"%char) then
        match unescape_head s with
        | Some (b, r1) =>
            if b <? 128 then Some (ascii_of_nat b, r1)
            else match unescape_head r1 with
                 | Some (b2, r2) =>
                     Some (ascii_of_nat ((b - 192) * 64 + (b2 - 128)), r2)
                 | None => None
                 end
        | None => None
        end
      else Some (c, r)
  end.

(** No whitespace character other than the space, and no two whitespace
    characters in a row. *)
Fixpoint single_spaced (s : string) : bool :=
  match s with
  | EmptyString => true
  | String c s' =>
      (negb (PyStr.isspace c) || bool_decide (c = " "%char))
      && match s' with
         | EmptyString => true
         | String c' _ => negb (PyStr.isspace c && PyStr.isspace c')
         end
      && single_spaced s'
  end.

(** The position of the product item a call to the selector engine is
    made on. *)
Definition item_of_event (ev : event) : option nat :=
  match ev with
  | CallSelect (Some i) _ | CallSelectOne i _ => Some i
  | CallSelect None _ | Logged _ _ | Printed _ => None
  end.

(** Every call to the selector engine recorded in [evs] for a product
    item is for an item whose position satisfies [P]. *)
Definition calls_on (P : nat -> Prop) (evs : list event) : Prop :=
  Forall (fun ev => forall j, item_of_event ev = Some j -> P j) evs.

(** The kinds of calls among the events. *)
Definition is_request (ev : io_event) : bool :=
  match ev with HttpGet _ _ => true | _ => false end.

Definition is_file_event (ev : io_event) : bool :=
  match ev with FileOpen _ | FileWrite _ | FileClose => true | _ => false end.

Definition is_table (ev : io_event) : bool :=
  match ev with ConsoleTable _ _ _ => true | _ => false end.




(** What every record in the result satisfies. *)
Definition well_formed (p : Product) : Prop :=
  PyStr.strip (name p) = name p
  /\ PyStr.strip (price p) = price p
  /\ String.length (display_name p) <= MAX_NAME_LENGTH + 3
  /\ String.length (availability p) <= 33
  /\ single_spaced (availability p) = true
  /\ url p <> "".

(** ** Sample documents *)

(** An element with a text and attributes and nothing below it. *)
Definition leaf (txt : string) (a : gmap string string) : Tag :=
  mkTag txt a (fun _ => Return []).

(** A tag that answers the selectors listed in [found] and finds nothing
    for any other. *)
Definition tag_with (found : gmap string (outcome (list Tag))) : Tag :=
  mkTag "" ∅ (fun sel => default (Return []) (found !! sel)).

Definition title_elem : Tag := leaf "  Widget One  " ∅.
Definition anchor_no_href : Tag := leaf "Widget One" ∅.
Definition anchor_relative : Tag := leaf "Widget One" {[ "href" := "/dp/B000TEST" ]}.
Definition anchor_absolute : Tag :=
  leaf "Widget One" {[ "href" := "https://example.org/w" ]}.
Definition anchor_empty_href : Tag := leaf "Widget One" {[ "href" := "" ]}.
Definition stock_elem : Tag :=
  leaf (" In   Stock" +:+ String "010" " - ships  tomorrow by noon ") ∅.

(** Name by the third name rule; the first URL rule finds a link without
    [href], the second one a relative link; one availability rule raises
    and the next one has a short candidate before an accepted one. *)
Definition item_widget : Tag :=
  tag_with (<[ "h2 a span" := Return [title_elem] ]>
           (<[ "h2 a.a-link-normal" := Return [anchor_no_href] ]>
           (<[ ".a-link-normal.s-underline-text" := Return [anchor_relative] ]>
           (<[ ".a-price .a-offscreen" := Return [leaf "$9.99" ∅] ]>
           (<[ ".a-color-price" := Raise (Exception "selector failure") ]>
           (<[ ".a-color-base.a-text-bold" := Return [leaf "ok" ∅; stock_elem] ]>
            ∅)))))).

Definition widget_record : Product :=
  {| name := "Widget One"; display_name := "Widget One"; price := "$9.99";
     availability := "In Stock - ships tomorrow by n...";
     url := "https://www.amazon.com/dp/B000TEST" |}.

(** The engine raises on the first name rule. *)
Definition item_broken : Tag :=
  tag_with (<[ ".a-size-medium.a-color-base.a-text-normal" :=
                 Raise (Exception "selector failure") ]>
           (<[ "h2 a span" := Return [title_elem] ]> ∅)).

(** The second name rule makes the engine raise, after a first rule that
    finds nothing. *)
Definition item_bad_title : Tag :=
  tag_with (<[ ".a-link-normal .a-text-normal" :=
                 Raise (Exception "selector failure") ]>
           (<[ "h2 a span" := Return [title_elem] ]> ∅)).

(** The name is found; the first URL rule finds a link without [href]
    and the second one makes the engine raise. *)
Definition item_bad_link : Tag :=
  tag_with (<[ "h2 a span" := Return [title_elem] ]>
           (<[ "h2 a.a-link-normal" := Return [anchor_no_href] ]>
           (<[ ".a-link-normal.s-underline-text" :=
                 Raise (Exception "selector failure") ]> ∅))).

(** The first URL rule finds a link whose [href] is the empty string. *)
Definition item_empty_href : Tag :=
  tag_with (<[ "h2 a span" := Return [title_elem] ]>
           (<[ "h2 a.a-link-normal" := Return [anchor_empty_href] ]> ∅)).

(** The first URL rule finds an absolute link. *)
Definition item_absolute : Tag :=
  tag_with (<[ "h2 a.a-link-normal" := Return [anchor_absolute] ]> ∅).

(** The second name rule finds an element whose text is blank; a later
    rule would find a title. *)
Definition item_blank_name : Tag :=
  tag_with (<[ ".a-link-normal .a-text-normal" := Return [leaf "   " ∅] ]>
           (<[ "h2 a span" := Return [title_elem] ]> ∅)).

(** An item known by its title only. *)
Definition item_titled (title : string) : Tag :=
  tag_with (<[ "h2 a span" := Return [leaf title ∅] ]> ∅).

Definition titled_record (title : string) : Product :=
  {| name := title; display_name := title; price := "N/A";
     availability := NO_AVAILABILITY; url := NO_URL |}.

Definition title_of (n : nat) : string := "Item " +:+ pretty n.

(** A document with the given product items, and a parser that yields it
    for any markup. *)
Definition document (items : list Tag) : Tag :=
  tag_with (<[ item_selector := Return items ]> ∅).

Definition parse_as (soup : Tag) (html_content : string) : outcome Tag :=
  Return soup.

Definition items25 : list Tag := (fun n => item_titled (title_of n)) <$> seq 0 25.

(** A parser that rejects every markup. *)
Definition parse_fails (html_content : string) : outcome Tag :=
  Raise (Exception "markup rejected").

(** A page with 12 product items, the last two of which make the
    selector engine raise. *)
Definition items12 : list Tag :=
  ((fun n => item_titled (title_of n)) <$> seq 0 10) ++ [item_broken; item_broken].

(** A run: the user types a search term, the site answers with a page of
    three product items of which the second is broken, and every call to
    the console and to the file returns. *)
Definition world_ok : World :=
  {| argv := ["amazon_scraper.py"];
     user_input := Done "  usb hub ";
     user_agent := "Mozilla/5.0";
     console_print := fun _ => Done tt;
     console_table := fun _ => Done tt;
     sleep := Done tt;
     requests_get := fun _ _ => Response "<html>";
     BeautifulSoup :=
       parse_as (document [item_widget; item_broken; item_titled "Gadget"]);
     open_file := fun _ => Return tt;
     file_write := fun _ _ => Return tt;
     file_close := Return tt;
     strftime := "2024-01-01 12:00:00" |}.

(** Runs that differ from [world_ok] in one respect: the arguments, the
    opening of the file, the input, or the console, which here refuses
    every markup that holds the search term. *)
Definition world_help : World :=
  {| argv := ["amazon_scraper.py"; "--help"];
     user_input := user_input world_ok; user_agent := user_agent world_ok;
     console_print := console_print world_ok;
     console_table := console_table world_ok; sleep := sleep world_ok;
     requests_get := requests_get world_ok;
     BeautifulSoup := BeautifulSoup world_ok;
     open_file := open_file world_ok; file_write := file_write world_ok;
     file_close := file_close world_ok; strftime := strftime world_ok |}.


Definition world_interrupted : World :=
  {| argv := argv world_ok;
     user_input := Throw KeyboardInterrupt; user_agent := user_agent world_ok;
     console_print := console_print world_ok;
     console_table := console_table world_ok; sleep := sleep world_ok;
     requests_get := requests_get world_ok;
     BeautifulSoup := BeautifulSoup world_ok;
     open_file := open_file world_ok; file_write := file_write world_ok;
     file_close := file_close world_ok; strftime := strftime world_ok |}.

Definition world_markup : World :=
  {| argv := argv world_ok;
     user_input := Done "[/b]"; user_agent := user_agent world_ok;
     console_print := fun markup =>
       if PyStr.contains "[/b]" markup
       then Throw (Error (Exception "closing tag '[/b]' doesn't match any open tag"))
       else Done tt;
     console_table := console_table world_ok; sleep := sleep world_ok;
     requests_get := requests_get world_ok;
     BeautifulSoup := BeautifulSoup world_ok;
     open_file := open_file world_ok; file_write := file_write world_ok;
     file_close := file_close world_ok; strftime := strftime world_ok |}.

(** A parser that knows two pages: the one of [items12], and under any
    other markup the page of its first ten items only. *)
Definition parse_pages (html_content : string) : outcome Tag :=
  if bool_decide (html_content = "<html>twelve</html>")
  then Return (document items12)
  else Return (document (take 10 items12)).

Definition long_name : string :=
  "Widget One Deluxe Edition with Extra Long Product Title for Display Purposes".

(** * Properties *)

Import PyStr.

(** ** Strings *)

Section StringFacts.
Implicit Types (s t w : string) (c : ascii).

Lemma str_app_cons c s t : String c s +:+ t = String c (s +:+ t).
Proof. reflexivity. Qed.

Lemma str_app_empty_l s : "" +:+ s = s.
Proof. reflexivity. Qed.

Lemma str_app_empty_r s : s +:+ "" = s.
Proof. induction s as [|c s IH]; [done | by rewrite str_app_cons, IH]. Qed.

Lemma str_app_assoc s t w : (s +:+ t) +:+ w = s +:+ t +:+ w.
Proof. induction s as [|c s IH]; [done | by rewrite !str_app_cons, IH]. Qed.

Lemma str_length_app s t :
  String.length (s +:+ t) = String.length s + String.length t.
Proof. induction s as [|c s IH]; [done | rewrite str_app_cons; simpl; by rewrite IH]. Qed.

Lemma str_app_eq_empty s t : s +:+ t = "" → s = "" ∧ t = "".
Proof. destruct s; [done | rewrite str_app_cons; discriminate]. Qed.

Lemma prefix_iff p s : String.prefix p s = true ↔ ∃ rest, s = p +:+ rest.
Proof.
  revert s; induction p as [|c p IH]; intros s.
  - destruct s; simpl; split; eauto.
  - destruct s as [|d s]; simpl.
    + split; [done | by intros [? ?]].
    + destruct (ascii_dec c d) as [->|Hne].
      * rewrite IH. split.
        -- intros [r ->]. by exists r.
        -- intros [r Hr]. rewrite str_app_cons in Hr. injection Hr as ->. by exists r.
      * split; [done | intros [r Hr]; rewrite str_app_cons in Hr; congruence].
Qed.

Lemma contains_iff sub s :
  contains sub s = true ↔ ∃ pre post, s = pre +:+ sub +:+ post.
Proof.
  induction s as [|c s IH]; cbn [contains].
  - rewrite orb_false_r, prefix_iff. split.
    + intros [r ->]. by exists "", r.
    + intros (pre & post & H). symmetry in H.
      apply str_app_eq_empty in H as [-> H].
      apply str_app_eq_empty in H as [-> ->]. by exists "".
  - rewrite orb_true_iff, IH, prefix_iff. split.
    + intros [[r ->] | (pre & post & ->)].
      * by exists "", r.
      * by exists (String c pre), post.
    + intros (pre & post & H). destruct pre as [|d pre].
      * left. rewrite str_app_empty_l in H. eauto.
      * right. rewrite str_app_cons in H. injection H as -> ->. eauto.
Qed.

Lemma slice_to_length n s :
  String.length (slice_to n s) = n `min` String.length s.
Proof.
  unfold slice_to. revert s; induction n as [|n IH]; intros [|c s]; simpl; auto.
Qed.

Lemma slice_to_prefix n s : ∃ rest, s = slice_to n s +:+ rest.
Proof.
  unfold slice_to. revert s; induction n as [|n IH]; intros [|c s]; simpl.
  - by exists "".
  - by eexists.
  - by exists "".
  - destruct (IH s) as [r Hr]. exists r. rewrite str_app_cons. by rewrite <- Hr.
Qed.

(** *** Stripping *)

Lemma lstrip_head s :
  lstrip s = "" ∨ ∃ c t, lstrip s = String c t ∧ isspace c = false.
Proof.
  induction s as [|c s IH]; simpl; [by left|].
  destruct (isspace c) eqn:Hc; [done | right; eauto].
Qed.

Lemma rstrip_cons_nonspace c s :
  isspace c = false → ∃ t, rstrip (String c s) = String c t.
Proof. intros Hc. simpl. destruct (rstrip s); rewrite ?Hc; eauto. Qed.

Lemma rstrip_idemp s : rstrip (rstrip s) = rstrip s.
Proof.
  induction s as [|c s IH]; simpl; [done|].
  destruct (rstrip s) as [|d r] eqn:Hr.
  - destruct (isspace c) eqn:Hc; simpl; [done | by rewrite Hc].
  - change (rstrip (String c (String d r))) with
      (match rstrip (String d r) with
       | "" => if isspace c then "" else String c ""
       | x => String c x end).
    by rewrite IH.
Qed.

Lemma rstrip_strip s : rstrip (strip s) = strip s.
Proof. apply rstrip_idemp. Qed.

Lemma lstrip_strip s : lstrip (strip s) = strip s.
Proof.
  unfold strip. destruct (lstrip_head s) as [-> | (c & t & -> & Hc)]; [done|].
  destruct (rstrip_cons_nonspace c t Hc) as [r ->]. simpl. by rewrite Hc.
Qed.

Lemma strip_idemp s : strip (strip s) = strip s.
Proof. unfold strip at 1. by rewrite lstrip_strip, rstrip_strip. Qed.

(** *** Splitting and joining *)

Lemma rstrip_fixed_tail c s : rstrip (String c s) = String c s → rstrip s = s.
Proof.
  simpl. destruct (rstrip s) as [|d r] eqn:Hr.
  - destruct (isspace c); [discriminate | congruence].
  - congruence.
Qed.

Lemma split_from_nil w s : split_from w s = [] → w = "" ∧ rstrip s = "".
Proof.
  revert w; induction s as [|c s IH]; intros w; simpl.
  - by case_decide.
  - destruct (isspace c) eqn:Hc.
    + case_decide; [|done]. intros [_ ->]%IH. done.
    + intros [[_ ?]%str_app_eq_empty _]%IH. discriminate.
Qed.

Lemma collapse_runs_space c s :
  isspace c = true →
  collapse_runs (String c s) = String " " (collapse_runs (lstrip s)).
Proof.
  intros Hc. revert c Hc; induction s as [|d s IH]; intros c Hc.
  - simpl. by rewrite Hc.
  - change (collapse_runs (String c (String d s))) with
      (if isspace c
       then (if isspace d then collapse_runs (String d s)
             else String " " (collapse_runs (String d s)))
       else String c (collapse_runs (String d s))).
    cbn [lstrip]. rewrite Hc.
    destruct (isspace d) eqn:Hd; [by apply IH | done].
Qed.

Lemma join_cons sep w ws :
  ws ≠ [] → join sep (w :: ws) = w +:+ sep +:+ join sep ws.
Proof. by destruct ws. Qed.

Lemma join_split_from w s :
  rstrip s = s →
  join " " (split_from w s)
  = if decide (w = "") then collapse_runs (lstrip s) else w +:+ collapse_runs s.
Proof.
  revert w; induction s as [|c s IH]; intros w Hs.
  - simpl. case_decide; [done | by rewrite str_app_empty_r].
  - pose proof (rstrip_fixed_tail _ _ Hs) as Hs'.
    cbn [split_from lstrip]. destruct (isspace c) eqn:Hc.
    + assert (split_from "" s ≠ []) as Hne.
      { intros [_ H]%split_from_nil.
        simpl in Hs. rewrite H, Hc in Hs. discriminate. }
      case_decide.
      * rewrite (IH "" Hs'). by rewrite decide_True.
      * rewrite join_cons by done. rewrite (IH "" Hs'), decide_True by done.
        by rewrite collapse_runs_space.
    + rewrite (IH _ Hs'). rewrite decide_False.
      2:{ intros [_ ?]%str_app_eq_empty. discriminate. }
      cbn [collapse_runs]. rewrite Hc.
      case_decide as Hw; [by subst w | by rewrite str_app_assoc].
Qed.

Lemma join_split_strip s :
  join " " (split (strip s)) = collapse_runs (strip s).
Proof.
  unfold split. rewrite join_split_from by apply rstrip_strip.
  by rewrite decide_True, lstrip_strip.
Qed.
End StringFacts.


(** ** The writer monad *)

Section Monad.
Context {A B : Type}.
Implicit Types (m : M A) (k : A → M B).

Lemma result_bind m k :
  result (bind m k)
  = match result m with Return a => result (k a) | Raise e => Raise e end.
Proof. destruct m as [[a|e] evs]; simpl; [by destruct (k a) | done]. Qed.

Lemma events_bind m k :
  events (bind m k)
  = events m ++ match result m with Return a => events (k a) | Raise _ => [] end.
Proof.
  destruct m as [[a|e] evs]; simpl; [by destruct (k a) | by rewrite app_nil_r].
Qed.

Lemma result_try_except (body : M A) h :
  result (try_except body h)
  = match result body with Return a => Return a | Raise e => result (h e) end.
Proof. destruct body as [[a|e] evs]; simpl; [done | by destruct (h e)]. Qed.

Lemma events_try_except (body : M A) h :
  events (try_except body h)
  = events body ++ match result body with Return _ => [] | Raise e => events (h e) end.
Proof.
  destruct body as [[a|e] evs]; simpl; [by rewrite app_nil_r | by destruct (h e)].
Qed.
End Monad.

Lemma result_call_select_one i item sel :
  result (call_select_one i item sel) = select_one item sel.
Proof. unfold call_select_one. rewrite result_bind. done. Qed.

Lemma events_call_select_one i item sel :
  events (call_select_one i item sel) = [CallSelectOne i sel].
Proof. unfold call_select_one. rewrite events_bind. done. Qed.

Lemma result_call_select i item sel :
  result (call_select i item sel) = select item sel.
Proof. unfold call_select. rewrite result_bind. done. Qed.

Lemma events_call_select i item sel :
  events (call_select i item sel) = [CallSelect i sel].
Proof. unfold call_select. rewrite events_bind. done. Qed.

Lemma first_usable_cons usable item sel0 rest k sel el :
  first_usable usable item (sel0 :: rest) k sel el →
  (k = 0 ∧ sel0 = sel ∧ select_one item sel = Return (Some el)
         ∧ usable el = true)
  ∨ (∃ k', k = S k' ∧ passed_over usable item sel0
           ∧ first_usable usable item rest k' sel el).
Proof.
  intros (Hk & Hsel & Hu & Hbefore). destruct k as [|k'].
  - left. simpl in Hk. injection Hk as ->. done.
  - right. exists k'. simpl in Hk, Hbefore.
    apply Forall_cons in Hbefore as [H0 Hrest]. by repeat split.
Qed.

Lemma selector_calls_app evs1 evs2 :
  selector_calls (evs1 ++ evs2) = selector_calls evs1 ++ selector_calls evs2.
Proof. apply omap_app. Qed.

Ltac loop_step :=
  rewrite ?result_bind, ?events_bind, ?result_call_select_one,
    ?events_call_select_one, ?result_call_select, ?events_call_select.

Lemma name_loop_first_match i item selectors nm k sel el :
  first_usable any_element item selectors k sel el →
  result (name_loop i item selectors nm) = Return (strip (text el))
  ∧ selector_calls (events (name_loop i item selectors nm)) = take (S k) selectors.
Proof.
  revert k; induction selectors as [|sel0 rest IH]; intros k Hfirst.
  - destruct Hfirst as (Hk & _). done.
  - cbn [name_loop]. loop_step.
    apply first_usable_cons in Hfirst
      as [(-> & -> & Hsel & _) | (k' & -> & (r & Hr & Hnone) & Hrest)].
    + rewrite Hsel. loop_step. by split.
    + rewrite Hr. destruct r as [el'|]; [done|].
      destruct (IH _ Hrest) as [-> Hcalls].
      split; [done|]. by rewrite selector_calls_app, Hcalls.
Qed.

Lemma url_loop_first_match i item selectors u k sel el href :
  first_usable has_href item selectors k sel el →
  attrs el !! "href" = Some href →
  result (url_loop i item selectors u) = Return (Some (absolute_url href))
  ∧ selector_calls (events (url_loop i item selectors u)) = take (S k) selectors.
Proof.
  intros Hfirst Hhref.
  revert k Hfirst; induction selectors as [|sel0 rest IH]; intros k Hfirst.
  - destruct Hfirst as (Hk & _). done.
  - cbn [url_loop]. loop_step.
    apply first_usable_cons in Hfirst
      as [(-> & -> & Hsel & Hu) | (k' & -> & (r & Hr & Hnone) & Hrest)].
    + rewrite Hsel. unfold has_href in Hu. rewrite Hu. loop_step.
      unfold getitem. rewrite Hhref. by split.
    + rewrite Hr. destruct (IH _ Hrest) as [IHr IHc].
      destruct r as [el'|]; simpl in Hnone.
      * unfold has_href in Hnone. rewrite Hnone.
        split; [done|]. by rewrite selector_calls_app, IHc.
      * split; [done|]. by rewrite selector_calls_app, IHc.
Qed.

Lemma url_loop_none i item selectors u :
  Forall (passed_over has_href item) selectors →
  result (url_loop i item selectors u) = Return u
  ∧ selector_calls (events (url_loop i item selectors u)) = selectors.
Proof.
  induction 1 as [|sel0 rest (r & Hr & Hnone) _ [IHr IHc]]; [done|].
  cbn [url_loop]. loop_step. rewrite Hr.
  destruct r as [el'|]; simpl in Hnone.
  - unfold has_href in Hnone. rewrite Hnone. split; [done|]. by rewrite selector_calls_app, IHc.
  - split; [done|]. by rewrite selector_calls_app, IHc.
Qed.

Lemma name_loop_none i item selectors nm :
  Forall (passed_over any_element item) selectors →
  result (name_loop i item selectors nm) = Return nm
  ∧ selector_calls (events (name_loop i item selectors nm)) = selectors.
Proof.
  induction 1 as [|sel0 rest (r & Hr & Hnone) _ [IHr IHc]]; [done|].
  cbn [name_loop]. loop_step. rewrite Hr.
  destruct r as [el'|]; [done|]. split; [done|]. by rewrite selector_calls_app, IHc.
Qed.

(** ** The availability loops *)

Lemma sentinel_not_accepted : accepted NO_AVAILABILITY = false.
Proof. vm_compute. reflexivity. Qed.

Lemma accepted_not_sentinel txt : accepted txt = true → txt ≠ NO_AVAILABILITY.
Proof. intros H ->. by rewrite sentinel_not_accepted in H. Qed.

Lemma find_app_some {A} (f : A → bool) l1 l2 x :
  List.find f l1 = Some x → List.find f (l1 ++ l2) = Some x.
Proof. induction l1 as [|a l1 IH]; simpl; [done | by destruct (f a)]. Qed.

Lemma find_app_none {A} (f : A → bool) l1 l2 :
  List.find f l1 = None → List.find f (l1 ++ l2) = List.find f l2.
Proof. induction l1 as [|a l1 IH]; simpl; [done | by destruct (f a)]. Qed.

Lemma elems_loop_spec i selector els av :
  result (elems_loop i selector els av)
  = Return (default av (List.find accepted ((λ el, strip (text el)) <$> els)))
  ∧ selector_calls (events (elems_loop i selector els av)) = [].
Proof.
  induction els as [|el els [IHr IHc]]; [done|].
  cbn [elems_loop fmap list_fmap List.find].
  destruct (accepted (strip (text el))); [by loop_step | done].
Qed.

Lemma try_selector_spec i item sel :
  result (try_selector i item sel NO_AVAILABILITY)
  = Return (match List.find accepted (rule_candidates item sel) with
            | Some txt => (txt, true)
            | None => (NO_AVAILABILITY, false)
            end)
  ∧ selector_calls (events (try_selector i item sel NO_AVAILABILITY)) = [sel].
Proof.
  unfold try_selector, rule_candidates.
  rewrite result_try_except, events_try_except. loop_step.
  destruct (select item sel) as [els|e]; [|done].
  destruct (elems_loop_spec i sel els NO_AVAILABILITY) as [Hr Hc].
  loop_step. rewrite Hr, !selector_calls_app, Hc.
  destruct (List.find accepted _) as [txt|] eqn:Hfind; [|done].
  destruct (List.find_some _ _ Hfind) as [_ Hacc].
  apply accepted_not_sentinel in Hacc.
  cbn [default from_option result events ret fst snd].
  by rewrite (bool_decide_eq_true_2 _ Hacc).
Qed.

Lemma availability_loop_spec i item selectors :
  result (availability_loop i item selectors NO_AVAILABILITY)
  = Return (default NO_AVAILABILITY (List.find accepted (candidates item selectors)))
  ∧ selector_calls (events (availability_loop i item selectors NO_AVAILABILITY))
    = scanned item selectors.
Proof.
  induction selectors as [|sel rest [IHr IHc]]; [done|].
  cbn [availability_loop scanned]. unfold candidates. cbn [fmap list_fmap concat].
  fold (candidates item rest).
  destruct (try_selector_spec i item sel) as [Hr Hc].
  loop_step. rewrite Hr, selector_calls_app, Hc.
  destruct (List.find accepted (rule_candidates item sel)) as [txt|] eqn:Hfind.
  - by rewrite (find_app_some _ _ _ _ Hfind).
  - rewrite (find_app_none _ _ _ Hfind). cbn [fst snd]. by rewrite IHr, IHc.
Qed.

(** ** One item, and the loop over the items *)

Lemma name_loop_index i j item selectors nm :
  result (name_loop i item selectors nm) = result (name_loop j item selectors nm).
Proof.
  induction selectors as [|sel rest IH]; [done|].
  cbn [name_loop]. loop_step.
  destruct (select_one item sel) as [[el|]|e]; [by loop_step | done | done].
Qed.

Lemma url_loop_index i j item selectors u :
  result (url_loop i item selectors u) = result (url_loop j item selectors u).
Proof.
  induction selectors as [|sel rest IH]; [done|].
  cbn [url_loop]. loop_step.
  destruct (select_one item sel) as [[el|]|e]; [|done..].
  destruct (has_attr el "href"); [|done]. loop_step.
  by destruct (getitem el "href").
Qed.

Lemma process_item_result i item :
  result (process_item i item)
  = match result (name_loop 0 item name_selectors NO_NAME) with
    | Raise e => Raise e
    | Return nm =>
        match result (url_loop 0 item url_selectors None) with
        | Raise e => Raise e
        | Return u =>
            match select_one item ".a-price .a-offscreen" with
            | Raise e => Raise e
            | Return price_elem =>
                Return
                  {| name := nm;
                     display_name := truncate_name nm;
                     price := match price_elem with
                              | Some el => strip (text el)
                              | None => "N/A"
                              end;
                     availability :=
                       clean_availability
                         (default NO_AVAILABILITY
                            (List.find accepted
                               (candidates item availability_selectors)));
                     url := url_field u |}
            end
        end
    end.
Proof.
  unfold process_item. rewrite result_bind.
  rewrite (name_loop_index i 0).
  destruct (result (name_loop 0 item name_selectors NO_NAME)) as [nm|e]; [|done].
  rewrite result_bind.
  replace (result (if bool_decide (nm = NO_NAME)
                   then log WARNING (failed_msg i "name") else ret ()))
    with (Return (A:=unit) ()) by (by case_bool_decide).
  rewrite result_bind, (url_loop_index i 0).
  destruct (result (url_loop 0 item url_selectors None)) as [u|e]; [|done].
  rewrite result_bind.
  replace (result (if not_url u
                   then log WARNING (failed_msg i "URL");;; ret NO_URL
                   else ret (default "" u)))
    with (Return (url_field u)) by (unfold url_field; by destruct (not_url u)).
  loop_step.
  destruct (select_one item ".a-price .a-offscreen") as [price_elem|e]; [|done].
  rewrite result_bind.
  destruct (availability_loop_spec i item availability_selectors) as [-> _].
  rewrite result_bind.
  by case_bool_decide.
Qed.

Lemma process_item_index i j item :
  result (process_item i item) = result (process_item j item).
Proof. by rewrite !process_item_result. Qed.

Lemma items_loop_result i items products :
  result (items_loop i items products) = Return (products ++ omap record_of items).
Proof.
  revert i products; induction items as [|item rest IH]; intros i products.
  - simpl. by rewrite app_nil_r.
  - cbn [items_loop omap list_omap]. rewrite result_bind, result_try_except, result_bind.
    unfold record_of at 1. rewrite (process_item_index i 0).
    destruct (result (process_item 0 item)) as [p|e].
    + cbn [result ret fst]. rewrite IH. by rewrite <- (assoc_L (++)).
    + rewrite result_bind. cbn [result print emit ret fst]. by rewrite IH.
Qed.

Section ExtractFacts.
Variable BeautifulSoup : string → outcome Tag.

Lemma extract_empty : extract_product_data BeautifulSoup "" = ret [].
Proof. done. Qed.

Lemma extract_unfold html_content :
  result (extract_product_data BeautifulSoup html_content)
  = if bool_decide (html_content = "") then Return []
    else match BeautifulSoup html_content with
         | Raise e => Raise e
         | Return soup =>
             match select soup item_selector with
             | Raise e => Raise e
             | Return product_items =>
                 Return (omap record_of (take MAX_PRODUCTS product_items))
             end
         end.
Proof.
  unfold extract_product_data. case_bool_decide; [done|].
  rewrite result_bind. unfold lift at 1. cbn [result fst].
  destruct (BeautifulSoup html_content) as [soup|e]; [|done].
  loop_step. destruct (select soup item_selector) as [its|e]; [|done].
  rewrite result_bind. cbn [result log emit fst].
  by rewrite items_loop_result.
Qed.
End ExtractFacts.

(** ** The field loops: first usable rule *)

Lemma try_selector_total i item sel av :
  ∃ step, result (try_selector i item sel av) = Return step.
Proof.
  unfold try_selector. rewrite result_try_except. loop_step.
  destruct (select item sel) as [els|e]; [|by eexists].
  destruct (elems_loop_spec i sel els av) as [Hr _].
  loop_step. rewrite Hr. by eexists.
Qed.

Lemma availability_loop_total i item selectors av :
  ∃ v, result (availability_loop i item selectors av) = Return v.
Proof.
  revert av; induction selectors as [|sel rest IH]; intros av; [by eexists|].
  cbn [availability_loop]. rewrite result_bind.
  destruct (try_selector_total i item sel av) as [[av' brk] ->].
  destruct brk; [by eexists | apply IH].
Qed.

Lemma select_one_raise item sel e :
  select item sel = Raise e → select_one item sel = Raise e.
Proof. unfold select_one. by intros ->. Qed.

(** C1 (as amended).  For every item and every ordered list of rules:
    the name loop returns the stripped text of the element found by the
    first rule whose selector finds an element, and the URL loop returns
    the resolved [href] of the element found by the first rule whose
    selector finds an element that has an [href] attribute, a rule whose
    element has none being passed over like a rule that finds nothing.
    In both loops the selector engine is called for the rules up to that
    one and for no later rule. *)
Theorem field_first_usable_rule i item selectors k sel el :
  (first_usable any_element item selectors k sel el →
   ∀ nm,
     result (name_loop i item selectors nm) = Return (strip (text el))
     ∧ selector_calls (events (name_loop i item selectors nm))
       = take (S k) selectors)
  ∧ (first_usable has_href item selectors k sel el →
     ∀ u, ∃ href,
       attrs el !! "href" = Some href
       ∧ result (url_loop i item selectors u) = Return (Some (absolute_url href))
       ∧ selector_calls (events (url_loop i item selectors u))
         = take (S k) selectors).
Proof.
  split.
  - intros Hfirst nm. by apply (name_loop_first_match i item selectors nm k sel el).
  - intros Hfirst u.
    assert (is_Some (attrs el !! "href")) as [href Hhref].
    { destruct Hfirst as (_ & _ & Hu & _). unfold has_href, has_attr in Hu.
      by apply bool_decide_eq_true in Hu. }
    exists href. split; [done|].
    by apply (url_loop_first_match i item selectors u k sel el href).
Qed.

Lemma item_widget_title :
  first_usable any_element item_widget name_selectors 2 "h2 a span" title_elem.
Proof.
  split; [reflexivity|]. split; [by vm_compute|]. split; [reflexivity|].
  cbn [take name_selectors]. repeat constructor; by exists None.
Qed.

Lemma item_widget_link :
  first_usable has_href item_widget url_selectors 1
    ".a-link-normal.s-underline-text" anchor_relative.
Proof.
  split; [reflexivity|]. split; [by vm_compute|]. split; [by vm_compute|].
  cbn [take url_selectors]. repeat constructor. by exists (Some anchor_no_href).
Qed.

Lemma field_first_usable_rule_witness :
  result (name_loop 0 item_widget name_selectors NO_NAME) = Return "Widget One"
  ∧ selector_calls (events (name_loop 0 item_widget name_selectors NO_NAME))
    = take 3 name_selectors
  ∧ ∃ href,
      attrs anchor_relative !! "href" = Some href
      ∧ result (url_loop 0 item_widget url_selectors None)
        = Return (Some (absolute_url href))
      ∧ selector_calls (events (url_loop 0 item_widget url_selectors None))
        = take 2 url_selectors.
Proof.
  destruct (field_first_usable_rule 0 item_widget name_selectors 2
              "h2 a span" title_elem) as [Hname _].
  destruct (field_first_usable_rule 0 item_widget url_selectors 1
              ".a-link-normal.s-underline-text" anchor_relative) as [_ Hurl].
  destruct (Hname item_widget_title NO_NAME) as [Hr Hc].
  split; [exact Hr|]. split; [exact Hc|].
  exact (Hurl item_widget_link None).
Defined.

(** C1 (as stated) fails for the URL rules.  In [item_widget] the first
    URL rule finds an element, which has no [href]; the loop goes on to
    the second rule and returns the link that one finds. *)
Lemma url_loop_goes_past_first_match :
  first_usable any_element item_widget url_selectors 0
    "h2 a.a-link-normal" anchor_no_href
  ∧ selector_calls (events (url_loop 0 item_widget url_selectors None))
    = [ "h2 a.a-link-normal"; ".a-link-normal.s-underline-text" ]
  ∧ result (url_loop 0 item_widget url_selectors None)
    = Return (Some "https://www.amazon.com/dp/B000TEST")
  ∧ ¬ stops_at_first_match (λ item selectors, url_loop 0 item selectors None).
Proof.
  assert (first_usable any_element item_widget url_selectors 0
            "h2 a.a-link-normal" anchor_no_href) as Hfirst.
  { split; [reflexivity|]. split; [by vm_compute|]. split; [reflexivity|].
    constructor. }
  split; [exact Hfirst|]. split; [by vm_compute|]. split; [by vm_compute|].
  intros Hclaim. specialize (Hclaim _ _ _ _ _ Hfirst).
  vm_compute in Hclaim. discriminate.
Qed.

(** ** Exceptions raised by a rule *)

Lemma name_loop_raise_at i item before selector rest nm e :
  Forall (passed_over any_element item) before →
  select item selector = Raise e →
  result (name_loop i item (before ++ selector :: rest) nm) = Raise e
  ∧ selector_calls (events (name_loop i item (before ++ selector :: rest) nm))
    = before ++ [selector].
Proof.
  intros Hbefore Hsel%select_one_raise.
  induction Hbefore as [|sel0 before (r & Hr & Hnone) _ [IHr IHc]].
  - cbn [app name_loop]. loop_step. by rewrite Hsel.
  - cbn [app name_loop]. loop_step. rewrite Hr.
    destruct r as [el|]; [done|]. split; [done|].
    by rewrite selector_calls_app, IHc.
Qed.

Lemma url_loop_raise_at i item before selector rest u e :
  Forall (passed_over has_href item) before →
  select item selector = Raise e →
  result (url_loop i item (before ++ selector :: rest) u) = Raise e
  ∧ selector_calls (events (url_loop i item (before ++ selector :: rest) u))
    = before ++ [selector].
Proof.
  intros Hbefore Hsel%select_one_raise.
  induction Hbefore as [|sel0 before (r & Hr & Hnone) _ [IHr IHc]].
  - cbn [app url_loop]. loop_step. by rewrite Hsel.
  - cbn [app url_loop]. loop_step. rewrite Hr.
    destruct r as [el|]; simpl in Hnone.
    + unfold has_href in Hnone. rewrite Hnone. split; [done|].
      by rewrite selector_calls_app, IHc.
    + split; [done|]. by rewrite selector_calls_app, IHc.
Qed.

Lemma process_item_raise_skips i item e :
  result (process_item i item) = Raise e → entry_skipped i item e.
Proof.
  intros Hp. split; [done|]. split.
  { unfold record_of. by rewrite (process_item_index 0 i), Hp. }
  intros rest products. cbn [items_loop].
  rewrite result_bind, events_bind, result_try_except, events_try_except.
  rewrite !result_bind, !events_bind, Hp.
  cbn [result events print emit ret fst snd app]. split; [done|].
  rewrite app_nil_r. apply elem_of_app. left. apply elem_of_app. right.
  by left.
Qed.

(** C2 (as amended).  When applying a rule raises: in the availability
    loop the rule counts as one that matched nothing and the next rule is
    tried, and no exception leaves that loop, whatever the rules.  In the
    name loop and in the URL loop a rule that is applied, every rule
    before it having found nothing usable, and that raises is not caught
    per rule: the exception leaves the loop, no later rule is tried, and
    the exception leaves the processing of the item (for a URL rule, the
    name loop having returned), where the handler of the loop over the
    items takes it and the item is skipped. *)
Theorem raising_rule_per_field i item before selector rest e :
  select item selector = Raise e →
  (∀ av, result (availability_loop i item (selector :: rest) av)
         = result (availability_loop i item rest av))
  ∧ (∀ selectors av, ∃ v, result (availability_loop i item selectors av) = Return v)
  ∧ (Forall (passed_over any_element item) before →
     (∀ nm,
        result (name_loop i item (before ++ selector :: rest) nm) = Raise e
        ∧ selector_calls
            (events (name_loop i item (before ++ selector :: rest) nm))
          = before ++ [selector])
     ∧ (name_selectors = before ++ selector :: rest → entry_skipped i item e))
  ∧ (Forall (passed_over has_href item) before →
     (∀ u,
        result (url_loop i item (before ++ selector :: rest) u) = Raise e
        ∧ selector_calls
            (events (url_loop i item (before ++ selector :: rest) u))
          = before ++ [selector])
     ∧ (url_selectors = before ++ selector :: rest →
        (∃ nm, result (name_loop i item name_selectors NO_NAME) = Return nm) →
        entry_skipped i item e)).
Proof.
  intros Hsel.
  split; [|split; [|split]].
  - intros av. cbn [availability_loop]. rewrite result_bind.
    unfold try_selector. rewrite result_try_except. loop_step. by rewrite Hsel.
  - intros selectors av. apply availability_loop_total.
  - intros Hbefore. split.
    + intros nm. by apply name_loop_raise_at.
    + intros Hnames. apply process_item_raise_skips.
      rewrite process_item_result, Hnames.
      by destruct (name_loop_raise_at 0 item before selector rest NO_NAME e
                     Hbefore Hsel) as [-> _].
  - intros Hbefore. split.
    + intros u. by apply url_loop_raise_at.
    + intros Hurls [nm Hnm]. apply process_item_raise_skips.
      rewrite process_item_result, <- (name_loop_index i 0), Hnm, Hurls.
      by destruct (url_loop_raise_at 0 item before selector rest None e
                     Hbefore Hsel) as [-> _].
Qed.

Lemma raising_rule_per_field_witness :
  (∀ av, result (availability_loop 0 item_widget
                   [".a-color-price"; ".a-color-base.a-text-bold"] av)
         = result (availability_loop 0 item_widget
                     [".a-color-base.a-text-bold"] av))
  ∧ entry_skipped 0 item_bad_title (Exception "selector failure")
  ∧ entry_skipped 0 item_bad_link (Exception "selector failure").
Proof.
  split; [|split].
  - apply (raising_rule_per_field 0 item_widget [] ".a-color-price"
             [".a-color-base.a-text-bold"] (Exception "selector failure")).
    reflexivity.
  - destruct (raising_rule_per_field 0 item_bad_title
                [".a-size-medium.a-color-base.a-text-normal"]
                ".a-link-normal .a-text-normal"
                (drop 2 name_selectors) (Exception "selector failure"))
      as (_ & _ & Hname & _); [reflexivity|].
    destruct Hname as [_ Hskip]; [|by apply Hskip].
    repeat constructor. by exists None.
  - destruct (raising_rule_per_field 0 item_bad_link
                ["h2 a.a-link-normal"] ".a-link-normal.s-underline-text"
                (drop 2 url_selectors) (Exception "selector failure"))
      as (_ & _ & _ & Hurl); [reflexivity|].
    destruct Hurl as [_ Hskip].
    + repeat constructor. by exists (Some anchor_no_href).
    + apply Hskip; [reflexivity|]. exists "Widget One". by vm_compute.
Defined.

(** C2 (as stated) fails for the name rules.  In [item_broken] the
    engine raises on the first name rule: the exception leaves the loop,
    no further rule is tried, and the title the third rule would find is
    not used. *)
Lemma name_loop_lets_exception_escape :
  result (name_loop 0 item_broken name_selectors NO_NAME)
  = Raise (Exception "selector failure")
  ∧ selector_calls (events (name_loop 0 item_broken name_selectors NO_NAME))
    = [ ".a-size-medium.a-color-base.a-text-normal" ]
  ∧ result (name_loop 0 item_broken (tail name_selectors) NO_NAME)
    = Return "Widget One"
  ∧ ¬ raising_rule_skipped (λ item selectors, name_loop 0 item selectors NO_NAME).
Proof.
  split; [by vm_compute|]. split; [by vm_compute|]. split; [by vm_compute|].
  intros Hclaim.
  specialize (Hclaim item_broken ".a-size-medium.a-color-base.a-text-normal"
                (tail name_selectors) (Exception "selector failure") eq_refl).
  vm_compute in Hclaim. discriminate.
Qed.

(** ** The availability filter *)

Lemma accepted_iff txt :
  accepted txt = true
  ↔ (∃ keyword, keyword ∈ keywords
                ∧ ∃ pre post, lower txt = pre +:+ keyword +:+ post)
    ∧ 3 < String.length txt.
Proof.
  unfold accepted. rewrite andb_true_iff, Nat.ltb_lt, existsb_exists.
  split; intros [(keyword & Hin & Hsub) Hlen]; (split; [|done]);
    exists keyword.
  - by rewrite list_elem_of_In, <- contains_iff.
  - by rewrite <- list_elem_of_In, contains_iff.
Qed.

Lemma candidates_origin item selectors txt :
  txt ∈ candidates item selectors →
  ∃ sel els el,
    sel ∈ selectors ∧ select item sel = Return els ∧ el ∈ els
    ∧ txt = strip (text el).
Proof.
  unfold candidates. induction selectors as [|sel rest IH]; cbn [fmap list_fmap concat].
  - by intros ?%elem_of_nil.
  - rewrite elem_of_app. intros [Hhere | Hlater].
    + unfold rule_candidates in Hhere.
      destruct (select item sel) as [els|e] eqn:Hsel;
        [|by apply elem_of_nil in Hhere].
      apply list_elem_of_fmap in Hhere as (el & -> & Hel).
      exists sel, els, el. repeat split; [left | done..].
    + destruct (IH Hlater) as (sel' & els & el & Hin & Hsel & Hel & ->).
      exists sel', els, el. repeat split; [by right | done..].
Qed.

Lemma find_elem_of {A} (f : A → bool) l x :
  List.find f l = Some x → x ∈ l ∧ f x = true.
Proof. intros [Hin Hf]%List.find_some. by rewrite list_elem_of_In. Qed.

(** C3.  For every item the availability loop, started on the sentinel,
    returns the first accepted candidate in scan order (the rules in
    order, the elements of each rule in order), or the sentinel when no
    candidate is accepted; it calls the selector engine for the rules up
    to the one that had the accepted candidate and for no later rule;
    and a returned value other than the sentinel is the stripped text of
    an element some rule found, is longer than 3 characters and contains,
    once lowered, one of the keywords. *)
Theorem availability_first_accepted i item selectors :
  result (availability_loop i item selectors NO_AVAILABILITY)
  = Return (default NO_AVAILABILITY
              (List.find accepted (candidates item selectors)))
  ∧ selector_calls (events (availability_loop i item selectors NO_AVAILABILITY))
    = scanned item selectors
  ∧ ∀ v,
      result (availability_loop i item selectors NO_AVAILABILITY) = Return v →
      v ≠ NO_AVAILABILITY →
      (∃ sel els el,
         sel ∈ selectors ∧ select item sel = Return els ∧ el ∈ els
         ∧ v = strip (text el))
      ∧ 3 < String.length v
      ∧ ∃ keyword, keyword ∈ keywords
                   ∧ ∃ pre post, lower v = pre +:+ keyword +:+ post.
Proof.
  destruct (availability_loop_spec i item selectors) as [Hr Hc].
  split; [done|]. split; [done|].
  intros v Hv Hne. rewrite Hr in Hv. injection Hv as <-.
  destruct (List.find accepted (candidates item selectors)) as [txt|] eqn:Hfind;
    [|done].
  apply find_elem_of in Hfind as [Hin Hacc]. cbn [from_option id].
  apply accepted_iff in Hacc as [Hkw Hlen].
  split; [by apply candidates_origin | done].
Qed.

Lemma availability_first_accepted_witness :
  result (availability_loop 0 item_widget availability_selectors NO_AVAILABILITY)
  = Return (strip (text stock_elem))
  ∧ selector_calls
      (events (availability_loop 0 item_widget availability_selectors
                 NO_AVAILABILITY))
    = take 3 availability_selectors
  ∧ 3 < String.length (strip (text stock_elem)).
Proof.
  destruct (availability_first_accepted 0 item_widget availability_selectors)
    as (Hr & Hc & Hv).
  split; [exact Hr|]. split; [exact Hc|].
  destruct (Hv (strip (text stock_elem))) as (_ & Hlen & _);
    [exact Hr | by vm_compute | exact Hlen].
Defined.

(** ** The clean-up of the accepted text *)

Lemma clean_availability_accepted txt :
  accepted (strip txt) = true →
  clean_availability (strip txt)
  = let c := collapse_runs (strip txt) in
    if 30 <? String.length c then slice_to 30 c +:+ "..." else c.
Proof.
  intros Hacc%accepted_not_sentinel. unfold clean_availability.
  rewrite (bool_decide_eq_true_2 _ Hacc). by rewrite join_split_strip.
Qed.

(** C4.  In the record of an item, the availability is the sentinel,
    untouched, when no candidate is accepted; otherwise it is made from
    the accepted text with every run of whitespace collapsed to one
    space: that text itself when it has at most 30 characters, and its
    first 30 characters followed by three dots (33 characters in all)
    when it has more. *)
Theorem availability_clean_up i item p :
  result (process_item i item) = Return p →
  match List.find accepted (candidates item availability_selectors) with
  | None => availability p = NO_AVAILABILITY
  | Some txt =>
      let c := collapse_runs txt in
      (String.length c ≤ 30 → availability p = c)
      ∧ (30 < String.length c →
         availability p = slice_to 30 c +:+ "..."
         ∧ String.length (slice_to 30 c) = 30
         ∧ (∃ rest, c = slice_to 30 c +:+ rest)
         ∧ String.length (availability p) = 33)
  end.
Proof.
  rewrite process_item_result. intros Hp.
  destruct (result (name_loop _ _ _ _)) as [nm|]; [|done].
  destruct (result (url_loop _ _ _ _)) as [u|]; [|done].
  destruct (select_one _ _) as [price_elem|]; [|done].
  injection Hp as <-. cbn [availability].
  destruct (List.find accepted _) as [txt|] eqn:Hfind; [|done].
  apply find_elem_of in Hfind as [Hin Hacc]. cbn [from_option id].
  apply candidates_origin in Hin as (sel & els & el & _ & _ & _ & ->).
  rewrite (clean_availability_accepted _ Hacc). cbn zeta.
  set (c := collapse_runs (strip (text el))).
  assert (30 < String.length c → String.length (slice_to 30 c) = 30) as Hlen.
  { intros Hc. rewrite slice_to_length. lia. }
  split; intros Hc.
  - by rewrite (proj2 (Nat.ltb_ge _ _) Hc).
  - rewrite (proj2 (Nat.ltb_lt _ _) Hc).
    split; [done|]. split; [by apply Hlen|]. split; [apply slice_to_prefix|].
    rewrite str_length_app, (Hlen Hc). done.
Qed.

Lemma availability_clean_up_witness :
  result (process_item 0 item_widget) = Return widget_record
  ∧ availability widget_record
    = slice_to 30 (collapse_runs (strip (text stock_elem))) +:+ "...".
Proof.
  assert (result (process_item 0 item_widget) = Return widget_record) as Hp
    by (by vm_compute).
  split; [exact Hp|].
  pose proof (availability_clean_up 0 item_widget widget_record Hp) as H.
  replace (List.find accepted (candidates item_widget availability_selectors))
    with (Some (strip (text stock_elem))) in H by (by vm_compute).
  destruct H as [_ H]. destruct H as [H _]; [vm_compute; lia | exact H].
Defined.

(** ** The URL field *)

Lemma process_item_fields i item p :
  result (process_item i item) = Return p →
  ∃ nm u price_elem,
    result (name_loop i item name_selectors NO_NAME) = Return nm
    ∧ result (url_loop i item url_selectors None) = Return u
    ∧ select_one item ".a-price .a-offscreen" = Return price_elem
    ∧ name p = nm
    ∧ display_name p = truncate_name nm
    ∧ url p = url_field u.
Proof.
  rewrite process_item_result, (name_loop_index i 0), (url_loop_index i 0).
  intros Hp.
  destruct (result (name_loop _ _ _ _)) as [nm|]; [|done].
  destruct (result (url_loop _ _ _ _)) as [u|]; [|done].
  destruct (select_one _ _) as [price_elem|]; [|done].
  injection Hp as <-. by exists nm, u, price_elem.
Qed.

Lemma url_field_absolute href :
  url_field (Some (absolute_url href))
  = if bool_decide (href = "") then NO_URL
    else if startswith href "/" then "https://www.amazon.com" +:+ href
         else href.
Proof.
  destruct (decide (href = "")) as [->|Hne]; [done|].
  rewrite (bool_decide_eq_false_2 _ Hne).
  unfold url_field, absolute_url, not_url.
  destruct (startswith href "/"); [done|].
  by rewrite (bool_decide_eq_false_2 _ Hne).
Qed.

(** C5 (as amended).  In the record of an item, with [href] the
    attribute of the element found by the first URL rule whose element
    has one: the URL is the base origin followed by [href] when [href]
    starts with a slash; it is [href] unchanged when [href] is not empty
    and does not start with a slash; and it is the sentinel when [href]
    is the empty string, as it is when no URL rule finds an element with
    an [href]. *)
Theorem url_field_resolution i item p :
  result (process_item i item) = Return p →
  (∀ k sel el href,
     first_usable has_href item url_selectors k sel el →
     attrs el !! "href" = Some href →
     (startswith href "/" = true → url p = "https://www.amazon.com" +:+ href)
     ∧ (href ≠ "" → startswith href "/" = false → url p = href)
     ∧ (href = "" → url p = NO_URL))
  ∧ (Forall (passed_over has_href item) url_selectors → url p = NO_URL).
Proof.
  intros (nm & u & price_elem & _ & Hu & _ & _ & _ & ->)%process_item_fields.
  split.
  - intros k sel el href Hfirst Hhref.
    destruct (url_loop_first_match i item url_selectors None k sel el href
                Hfirst Hhref) as [Hr _].
    rewrite Hr in Hu. injection Hu as <-. rewrite url_field_absolute.
    split; [|split].
    + intros Hslash. rewrite Hslash. case_bool_decide as Hempty; [|done].
      by rewrite Hempty in Hslash.
    + intros Hne Hslash. by rewrite Hslash, bool_decide_eq_false_2.
    + intros ->. done.
  - intros Hnone.
    destruct (url_loop_none i item url_selectors None Hnone) as [Hr _].
    rewrite Hr in Hu. by injection Hu as <-.
Qed.

Lemma item_absolute_link :
  first_usable has_href item_absolute url_selectors 0
    "h2 a.a-link-normal" anchor_absolute.
Proof.
  split; [reflexivity|]. split; [by vm_compute|]. split; [by vm_compute|].
  constructor.
Qed.

Lemma url_field_resolution_witness :
  url widget_record = "https://www.amazon.com" +:+ "/dp/B000TEST"
  ∧ url (titled_record "") = NO_URL
  ∧ ∃ p, result (process_item 0 item_absolute) = Return p
         ∧ url p = "https://example.org/w".
Proof.
  split; [|split].
  - destruct (url_field_resolution 0 item_widget widget_record) as [H _];
      [by vm_compute|].
    destruct (H 1 ".a-link-normal.s-underline-text" anchor_relative
                "/dp/B000TEST" item_widget_link eq_refl) as [Hrel _].
    by apply Hrel.
  - destruct (url_field_resolution 0 (item_titled "") (titled_record ""))
      as [_ H]; [by vm_compute|].
    apply H. cbn [url_selectors]. repeat constructor; by exists None.
  - eexists. split; [by vm_compute|].
    match goal with
    | |- url ?p = _ =>
        destruct (url_field_resolution 0 item_absolute p) as [H _];
          [by vm_compute|]
    end.
    destruct (H 0 "h2 a.a-link-normal" anchor_absolute
                "https://example.org/w" item_absolute_link eq_refl)
      as (_ & Habs & _).
    by apply Habs.
Defined.

(** C5 (as stated) fails on an empty [href].  In [item_empty_href] the
    first URL rule finds a link whose [href] is the empty string, which
    does not start with a slash; the record does not carry it unchanged
    but carries the sentinel. *)
Lemma empty_href_gives_sentinel :
  first_usable has_href item_empty_href url_selectors 0
    "h2 a.a-link-normal" anchor_empty_href
  ∧ attrs anchor_empty_href !! "href" = Some ""
  ∧ startswith "" "/" = false
  ∧ (∃ p, result (process_item 0 item_empty_href) = Return p
          ∧ url p = "No URL available")
  ∧ ¬ href_resolved_or_kept.
Proof.
  assert (first_usable has_href item_empty_href url_selectors 0
            "h2 a.a-link-normal" anchor_empty_href) as Hfirst.
  { split; [reflexivity|]. split; [by vm_compute|]. split; [by vm_compute|].
    constructor. }
  split; [exact Hfirst|]. split; [by vm_compute|]. split; [reflexivity|].
  split; [eexists; split; by vm_compute|].
  intros Hclaim.
  specialize (Hclaim 0 item_empty_href 0 "h2 a.a-link-normal"
                anchor_empty_href "" _ Hfirst eq_refl eq_refl).
  vm_compute in Hclaim. discriminate.
Qed.

(** ** The collection of the records *)

Lemma omap_length_le {A B} (f : A → option B) (l : list A) :
  length (omap f l) ≤ length l.
Proof.
  induction l as [|x l IH]; [done|].
  change (omap f (x :: l))
    with (match f x with Some y => y :: omap f l | None => omap f l end).
  destruct (f x); simpl; lia.
Qed.

Lemma omap_all_some {A B} (f : A → option B) (l : list A) :
  Forall (λ x, is_Some (f x)) l →
  Some <$> omap f l = f <$> l ∧ length (omap f l) = length l.
Proof.
  induction 1 as [|x l [y Hy] _ [IH1 IH2]]; [done|].
  change (omap f (x :: l))
    with (match f x with Some y => y :: omap f l | None => omap f l end).
  rewrite fmap_cons, Hy, fmap_cons, IH1. simpl. by rewrite IH2.
Qed.

(** C6.  Whatever the document, the returned list has at most
    [MAX_PRODUCTS] (10) records.  When the document parses and its
    product items are [product_items], the list is made of the records of
    the first 10 of them, in their order, the items whose processing
    raises being left out; with 25 product items, all of which can be
    processed, it has exactly 10 records, those of the first 10 items in
    order. *)
Theorem collect_at_most_cap BeautifulSoup html_content products :
  result (extract_product_data BeautifulSoup html_content) = Return products →
  length products ≤ MAX_PRODUCTS
  ∧ ∀ soup product_items,
      html_content ≠ "" →
      BeautifulSoup html_content = Return soup →
      select soup item_selector = Return product_items →
      products = omap record_of (take MAX_PRODUCTS product_items)
      ∧ (length product_items = 25 →
         Forall (λ item, is_Some (record_of item)) product_items →
         length products = 10
         ∧ Some <$> products = record_of <$> take 10 product_items).
Proof.
  rewrite extract_unfold. intros Hres. split.
  - case_bool_decide; [by injection Hres as <-; simpl; lia|].
    destruct (BeautifulSoup html_content) as [soup|]; [|done].
    destruct (select soup item_selector) as [items|]; [|done].
    injection Hres as <-.
    etrans; [apply omap_length_le|]. rewrite length_take. lia.
  - intros soup items Hne Hsoup Hsel.
    rewrite bool_decide_eq_false_2, Hsoup, Hsel in Hres by done.
    injection Hres as <-. split; [done|].
    intros Hlen Hall.
    destruct (omap_all_some record_of (take MAX_PRODUCTS items)) as [Hmap Hl].
    { by apply Forall_take. }
    split; [|exact Hmap].
    rewrite Hl, length_take, Hlen. done.
Qed.

Lemma collect_at_most_cap_witness :
  result (extract_product_data (parse_as (document items25)) "<html>")
  = Return ((λ n, titled_record (title_of n)) <$> seq 0 10)
  ∧ length ((λ n, titled_record (title_of n)) <$> seq 0 10) = 10.
Proof.
  assert (result (extract_product_data (parse_as (document items25)) "<html>")
          = Return ((λ n, titled_record (title_of n)) <$> seq 0 10)) as Hres
    by (by vm_compute).
  split; [exact Hres|].
  destruct (collect_at_most_cap _ _ _ Hres) as [_ H].
  destruct (H (document items25) items25) as [_ H25];
    [done | reflexivity | by vm_compute |].
  destruct H25 as [Hlen _]; [reflexivity | | exact Hlen].
  unfold items25. cbn [seq fmap list_fmap].
  repeat (constructor; [vm_compute; by eexists|]). constructor.
Defined.

Lemma record_of_raise i item e :
  result (process_item i item) = Raise e → record_of item = None.
Proof. unfold record_of. rewrite (process_item_index 0 i). by intros ->. Qed.

Lemma record_of_return i item p :
  result (process_item i item) = Return p → record_of item = Some p.
Proof. unfold record_of. rewrite (process_item_index 0 i). by intros ->. Qed.

(** C7.  When the processing of one of the first 10 product items
    raises, that item gives no record and the items before and after it
    give theirs as usual.  In particular, with three product items of
    which only the second raises, the result is the record of the first
    followed by the record of the third. *)
Theorem entry_isolation BeautifulSoup html_content soup product_items :
  html_content ≠ "" →
  BeautifulSoup html_content = Return soup →
  select soup item_selector = Return product_items →
  (∀ before entry after e,
     product_items = before ++ entry :: after →
     length before < MAX_PRODUCTS →
     result (process_item (length before) entry) = Raise e →
     result (extract_product_data BeautifulSoup html_content)
     = Return (omap record_of before
               ++ omap record_of
                    (take (MAX_PRODUCTS - S (length before)) after)))
  ∧ (∀ entry1 entry2 entry3 record1 record3 e,
       product_items = [entry1; entry2; entry3] →
       result (process_item 0 entry1) = Return record1 →
       result (process_item 1 entry2) = Raise e →
       result (process_item 2 entry3) = Return record3 →
       result (extract_product_data BeautifulSoup html_content)
       = Return [record1; record3]).
Proof.
  intros Hne Hsoup Hsel.
  rewrite extract_unfold, bool_decide_eq_false_2, Hsoup, Hsel by done.
  split.
  - intros before entry after e -> Hlen Hraise.
    rewrite take_app_ge by lia.
    replace (MAX_PRODUCTS - length before)
      with (S (MAX_PRODUCTS - S (length before))) by lia.
    rewrite firstn_cons, omap_app.
    change (omap record_of (entry :: ?l))
      with (match record_of entry with
            | Some y => y :: omap record_of l
            | None => omap record_of l
            end).
    by rewrite (record_of_raise _ _ _ Hraise).
  - intros entry1 entry2 entry3 record1 record3 e -> H1 H2 H3.
    cbn. by rewrite (record_of_return _ _ _ H1), (record_of_raise _ _ _ H2),
      (record_of_return _ _ _ H3).
Qed.

Lemma entry_isolation_witness :
  result (extract_product_data
            (parse_as (document [item_widget; item_broken; item_titled "Gadget"]))
            "<html>")
  = Return [widget_record; titled_record "Gadget"].
Proof.
  destruct (entry_isolation
              (parse_as (document [item_widget; item_broken; item_titled "Gadget"]))
              "<html>"
              (document [item_widget; item_broken; item_titled "Gadget"])
              [item_widget; item_broken; item_titled "Gadget"])
    as [_ H]; [done | reflexivity | by vm_compute |].
  apply (H item_widget item_broken (item_titled "Gadget") widget_record
           (titled_record "Gadget") (Exception "selector failure"));
    [reflexivity | by vm_compute..].
Defined.

(** C8.  For the empty document, and for a document that parses and has
    no product item, the function returns the empty list; it raises
    nothing. *)
Theorem no_entries_empty_result BeautifulSoup html_content :
  html_content = ""
  ∨ (∃ soup, BeautifulSoup html_content = Return soup
             ∧ select soup item_selector = Return []) →
  result (extract_product_data BeautifulSoup html_content) = Return [].
Proof.
  rewrite extract_unfold. intros [-> | (soup & -> & ->)]; [done|].
  by case_bool_decide.
Qed.

Lemma no_entries_empty_result_witness :
  result (extract_product_data (parse_as (document [item_widget])) "")
  = Return []
  ∧ result (extract_product_data (parse_as (document [])) "<html></html>")
    = Return [].
Proof.
  split.
  - apply no_entries_empty_result. by left.
  - apply no_entries_empty_result. right. exists (document []).
    split; [reflexivity | by vm_compute].
Defined.

(** ** The names *)

(** C9.  For every name, the display name is the name itself when the
    name has at most 70 characters, and the first 70 characters of the
    name followed by three dots when it has more; so it never has more
    than 73 characters.  In the record of an item, [display_name] is that
    display name of [name]. *)
Theorem display_name_truncation nm :
  (String.length nm ≤ 70 → truncate_name nm = nm)
  ∧ (70 < String.length nm →
     truncate_name nm = slice_to 70 nm +:+ "..."
     ∧ String.length (slice_to 70 nm) = 70
     ∧ ∃ rest, nm = slice_to 70 nm +:+ rest)
  ∧ String.length (truncate_name nm) ≤ 73
  ∧ ∀ i item p,
      result (process_item i item) = Return p →
      name p = nm → display_name p = truncate_name nm.
Proof.
  assert (70 < String.length nm → String.length (slice_to 70 nm) = 70) as Hlen.
  { intros Hc. rewrite slice_to_length. lia. }
  unfold truncate_name, MAX_NAME_LENGTH. split; [|split; [|split]].
  - intros Hle. by rewrite (proj2 (Nat.ltb_ge _ _) Hle).
  - intros Hlt. rewrite (proj2 (Nat.ltb_lt _ _) Hlt).
    split; [done|]. split; [by apply Hlen | apply slice_to_prefix].
  - destruct (70 <? String.length nm) eqn:Hcmp.
    + apply Nat.ltb_lt in Hcmp. rewrite str_length_app, (Hlen Hcmp). simpl. lia.
    + apply Nat.ltb_ge in Hcmp. lia.
  - intros i item p (nm' & u & pe & _ & _ & _ & Hn & Hd & _)%process_item_fields Hnm.
    rewrite Hd. by rewrite <- Hn, Hnm.
Qed.

Lemma display_name_truncation_witness :
  truncate_name long_name
  = "Widget One Deluxe Edition with Extra Long Product Title for Display Pu..."
  ∧ String.length (truncate_name long_name) = 73
  ∧ display_name widget_record = truncate_name "Widget One".
Proof.
  destruct (display_name_truncation long_name) as (_ & Hlong & _ & _).
  destruct Hlong as (Heq & _ & _); [vm_compute; lia|].
  split; [rewrite Heq; by vm_compute|]. split; [by vm_compute|].
  destruct (display_name_truncation "Widget One") as (_ & _ & _ & Hrec).
  apply (Hrec 0 item_widget widget_record); by vm_compute.
Defined.

(** C10.  When the first name rule that finds an element finds one whose
    text strips to the empty string, the name loop returns the empty
    string and calls the selector engine for no later rule; the record of
    the item, when there is one, has the empty string for name, not the
    sentinel. *)
Theorem empty_name_accepted i item k sel el :
  first_usable any_element item name_selectors k sel el →
  strip (text el) = "" →
  result (name_loop i item name_selectors NO_NAME) = Return ""
  ∧ selector_calls (events (name_loop i item name_selectors NO_NAME))
    = take (S k) name_selectors
  ∧ ∀ p, result (process_item i item) = Return p →
         name p = "" ∧ name p ≠ NO_NAME.
Proof.
  intros Hfirst Hblank.
  destruct (name_loop_first_match i item name_selectors NO_NAME k sel el Hfirst)
    as [Hr Hc].
  rewrite Hblank in Hr. split; [done|]. split; [done|].
  intros p (nm & u & pe & Hnm & _ & _ & Hn & _)%process_item_fields.
  rewrite Hr in Hnm. injection Hnm as <-. by rewrite Hn.
Qed.

Lemma empty_name_accepted_witness :
  result (name_loop 0 item_blank_name name_selectors NO_NAME) = Return ""
  ∧ selector_calls (events (name_loop 0 item_blank_name name_selectors NO_NAME))
    = take 2 name_selectors
  ∧ result (process_item 0 item_blank_name) = Return (titled_record "").
Proof.
  destruct (empty_name_accepted 0 item_blank_name 1
              ".a-link-normal .a-text-normal" (leaf "   " ∅))
    as (Hr & Hc & _).
  - split; [reflexivity|]. split; [by vm_compute|]. split; [reflexivity|].
    cbn [take name_selectors]. repeat constructor. by exists None.
  - by vm_compute.
  - split; [exact Hr|]. split; [exact Hc | by vm_compute].
Defined.

(** * Further properties of the extraction *)

(** ** What every record satisfies *)

Lemma strip_sentinel : strip NO_NAME = NO_NAME.
Proof. reflexivity. Qed.

Lemma name_loop_value i item selectors nm v :
  result (name_loop i item selectors nm) = Return v →
  v = nm ∨ ∃ el, v = strip (text el).
Proof.
  induction selectors as [|sel rest IH]; cbn [name_loop].
  - intros [= <-]. by left.
  - loop_step. destruct (select_one item sel) as [[el|]|e]; [| |done].
    + loop_step. intros [= <-]. right. by exists el.
    + apply IH.
Qed.

Lemma url_loop_value i item selectors u v :
  result (url_loop i item selectors u) = Return v →
  v = u ∨ ∃ href, v = Some (absolute_url href).
Proof.
  induction selectors as [|sel rest IH]; cbn [url_loop].
  - intros [= <-]. by left.
  - loop_step. destruct (select_one item sel) as [[el|]|e]; [| |done].
    + destruct (has_attr el "href"); [|apply IH]. loop_step.
      destruct (getitem el "href") as [href|]; [|done].
      loop_step. intros [= <-]. right. by exists href.
    + apply IH.
Qed.

Lemma url_field_nonempty u : url_field u ≠ "".
Proof.
  unfold url_field, not_url. destruct u as [s|]; [|done].
  case_bool_decide; done.
Qed.

Lemma single_spaced_collapse s : single_spaced (collapse_runs s) = true.
Proof.
  induction s as [|c s IH]; [done|].
  destruct s as [|d s].
  - cbn [collapse_runs]. destruct (isspace c) eqn:Hc; [done|].
    cbn [single_spaced]. by rewrite Hc.
  - change (collapse_runs (String c (String d s))) with
      (if isspace c
       then (if isspace d then collapse_runs (String d s)
             else String " " (collapse_runs (String d s)))
       else String c (collapse_runs (String d s))).
    destruct (isspace c) eqn:Hc.
    + destruct (isspace d) eqn:Hd; [done|].
      cbn [single_spaced]. rewrite IH.
      cbn [collapse_runs]. rewrite Hd. cbn iota. by rewrite Hd, andb_false_r.
    + cbn [single_spaced]. rewrite IH, Hc. cbn [negb orb andb].
      by destruct (collapse_runs (String d s)).
Qed.

Lemma single_spaced_slice n s :
  single_spaced s = true → single_spaced (slice_to n s) = true.
Proof.
  unfold slice_to. revert s; induction n as [|n IH]; intros [|c s]; try done.
  cbn [String.substring single_spaced].
  intros [[Hc Hnext]%andb_true_iff Hrest]%andb_true_iff.
  rewrite Hc, (IH _ Hrest), andb_true_r, andb_true_l.
  destruct n as [|n]; destruct s as [|d s]; try done.
Qed.

Lemma single_spaced_dots s :
  single_spaced s = true → single_spaced (s +:+ "...") = true.
Proof.
  induction s as [|c s IH]; [done|]. rewrite str_app_cons.
  cbn [single_spaced].
  intros [[Hc Hnext]%andb_true_iff Hrest]%andb_true_iff.
  rewrite Hc, (IH Hrest), andb_true_r, andb_true_l. destruct s as [|d s].
  - change ("" +:+ "...") with "...". cbn iota. by destruct (isspace c).
  - by rewrite str_app_cons.
Qed.

Lemma clean_availability_format txt :
  accepted (strip txt) = true →
  String.length (clean_availability (strip txt)) ≤ 33
  ∧ single_spaced (clean_availability (strip txt)) = true.
Proof.
  intros Hacc. rewrite (clean_availability_accepted _ Hacc). cbn zeta.
  pose proof (single_spaced_collapse (strip txt)) as Hss.
  destruct (30 <? String.length _) eqn:Hcmp.
  - rewrite str_length_app, slice_to_length.
    change (String.length "...") with 3. split; [lia|].
    by apply single_spaced_dots, single_spaced_slice.
  - apply Nat.ltb_ge in Hcmp. split; [lia | done].
Qed.

Lemma truncate_name_length nm :
  String.length (truncate_name nm) ≤ MAX_NAME_LENGTH + 3.
Proof.
  unfold truncate_name, MAX_NAME_LENGTH.
  destruct (70 <? String.length nm) eqn:Hcmp.
  - rewrite str_length_app, slice_to_length.
    change (String.length "...") with 3. lia.
  - apply Nat.ltb_ge in Hcmp. lia.
Qed.

Lemma record_well_formed i item p :
  result (process_item i item) = Return p → well_formed p.
Proof.
  intros Hp. pose proof Hp as Hfields.
  rewrite process_item_result in Hp.
  destruct (result (name_loop _ _ _ _)) as [nm|] eqn:Hnm; [|done].
  destruct (result (url_loop _ _ _ _)) as [u|]; [|done].
  destruct (select_one _ _) as [price_elem|]; [|done].
  injection Hp as <-. unfold well_formed.
  cbn [name price display_name availability url].
  split; [|split; [|split; [|split; [|split]]]].
  - apply name_loop_value in Hnm as [-> | [el ->]];
      [done | apply strip_idemp].
  - destruct price_elem as [el|]; [apply strip_idemp | done].
  - apply truncate_name_length.
  - destruct (List.find accepted _) as [txt|] eqn:Hfind; [|vm_compute; lia].
    apply find_elem_of in Hfind as [Hin Hacc]. cbn [from_option id].
    apply candidates_origin in Hin as (sel & els & el & _ & _ & _ & ->).
    by apply clean_availability_format.
  - destruct (List.find accepted _) as [txt|] eqn:Hfind; [|by vm_compute].
    apply find_elem_of in Hfind as [Hin Hacc]. cbn [from_option id].
    apply candidates_origin in Hin as (sel & els & el & _ & _ & _ & ->).
    by apply clean_availability_format.
  - apply url_field_nonempty.
Qed.

Lemma extract_records_origin BeautifulSoup html_content products p :
  result (extract_product_data BeautifulSoup html_content) = Return products →
  p ∈ products → ∃ item, result (process_item 0 item) = Return p.
Proof.
  rewrite extract_unfold. case_bool_decide.
  - intros [= <-]. by intros ?%elem_of_nil.
  - destruct (BeautifulSoup html_content) as [soup|]; [|done].
    destruct (select soup item_selector) as [items|]; [|done].
    intros [= <-] (item & _ & Hrec)%list_elem_of_omap.
    exists item. unfold record_of in Hrec.
    by destruct (result (process_item 0 item)) as [q|]; simplify_eq.
Qed.

(** X1.  Every record [extract_product_data] returns has a URL that is
    not the empty string: a link that cannot be used is replaced by the
    sentinel, never left blank. *)
Theorem records_url_never_empty BeautifulSoup html_content products :
  result (extract_product_data BeautifulSoup html_content) = Return products →
  Forall (λ p, url p ≠ "") products.
Proof.
  intros Hres. apply Forall_forall. intros p Hp.
  destruct (extract_records_origin _ _ _ _ Hres Hp) as [item Hitem].
  apply (record_well_formed _ _ _ Hitem).
Qed.

Lemma records_url_never_empty_witness :
  Forall (λ p, url p ≠ "") [titled_record "Widget One"].
Proof.
  apply (records_url_never_empty
           (parse_as (document [item_empty_href; item_broken])) "<html>").
  by vm_compute.
Defined.

(** X2.  In every record [extract_product_data] returns, the
    availability has at most 33 characters, holds no whitespace
    character other than the space (no line break, no tab) and no two
    spaces in a row. *)
Theorem records_availability_one_line BeautifulSoup html_content products :
  result (extract_product_data BeautifulSoup html_content) = Return products →
  Forall (λ p, String.length (availability p) ≤ 33
               ∧ single_spaced (availability p) = true) products.
Proof.
  intros Hres. apply Forall_forall. intros p Hp.
  destruct (extract_records_origin _ _ _ _ Hres Hp) as [item Hitem].
  destruct (record_well_formed _ _ _ Hitem) as (_ & _ & _ & Hlen & Hss & _).
  by split.
Qed.

Lemma records_availability_one_line_witness :
  Forall (λ p, String.length (availability p) ≤ 33
               ∧ single_spaced (availability p) = true)
    [widget_record; titled_record "Gadget"].
Proof.
  apply (records_availability_one_line
           (parse_as (document [item_widget; item_broken; item_titled "Gadget"]))
           "<html>").
  by vm_compute.
Defined.

(** X3.  In every record [extract_product_data] returns, the name and the
    price have no leading and no trailing whitespace: stripping them
    again changes nothing. *)
Theorem records_fields_stripped BeautifulSoup html_content products :
  result (extract_product_data BeautifulSoup html_content) = Return products →
  Forall (λ p, strip (name p) = name p ∧ strip (price p) = price p) products.
Proof.
  intros Hres. apply Forall_forall. intros p Hp.
  destruct (extract_records_origin _ _ _ _ Hres Hp) as [item Hitem].
  destruct (record_well_formed _ _ _ Hitem) as (Hn & Hpr & _).
  by split.
Qed.

Lemma records_fields_stripped_witness :
  Forall (λ p, strip (name p) = name p ∧ strip (price p) = price p)
    [widget_record].
Proof.
  apply (records_fields_stripped (parse_as (document [item_widget])) "<html>").
  by vm_compute.
Defined.

(** X4.  The price of a record is the stripped text of the first element
    the price selector finds, and ["N/A"] when it finds none; when the
    selector engine raises on the price selector the item has no
    record. *)
Theorem price_field i item :
  (∀ p, result (process_item i item) = Return p →
        (∃ el, select_one item ".a-price .a-offscreen" = Return (Some el)
               ∧ price p = strip (text el))
        ∨ (select_one item ".a-price .a-offscreen" = Return None
           ∧ price p = "N/A"))
  ∧ (∀ e, select item ".a-price .a-offscreen" = Raise e →
          record_of item = None).
Proof.
  split.
  - intros p. rewrite process_item_result.
    destruct (result (name_loop _ _ _ _)) as [nm|]; [|done].
    destruct (result (url_loop _ _ _ _)) as [u|]; [|done].
    destruct (select_one item _) as [[el|]|e]; [| |done]; intros [= <-].
    + left. by exists el.
    + by right.
  - intros e Hsel%select_one_raise. unfold record_of.
    rewrite process_item_result, Hsel.
    destruct (result (name_loop _ _ _ _)) as [nm|]; [|done].
    by destruct (result (url_loop _ _ _ _)) as [u|].
Qed.

Lemma price_field_witness :
  (∃ el, select_one item_widget ".a-price .a-offscreen" = Return (Some el)
         ∧ price widget_record = strip (text el))
  ∨ (select_one item_widget ".a-price .a-offscreen" = Return None
     ∧ price widget_record = "N/A").
Proof.
  apply (price_field 0 item_widget). by vm_compute.
Defined.

(** ** Which items the selector engine is called on *)

Lemma calls_on_impl (P Q : nat → Prop) evs :
  (∀ j, P j → Q j) → calls_on P evs → calls_on Q evs.
Proof.
  intros HPQ Hevs. unfold calls_on. eapply Forall_impl; [exact Hevs|].
  intros ev Hev j Hj. by apply HPQ, Hev.
Qed.

Lemma calls_on_bind {A B} P (m : M A) (k : A → M B) :
  calls_on P (events m) →
  (∀ a, calls_on P (events (k a))) →
  calls_on P (events (bind m k)).
Proof.
  intros Hm Hk. rewrite events_bind. apply Forall_app. split; [done|].
  destruct (result m); [apply Hk | constructor].
Qed.

Lemma calls_on_try_except {A} P (body : M A) h :
  calls_on P (events body) →
  (∀ e, calls_on P (events (h e))) →
  calls_on P (events (try_except body h)).
Proof.
  intros Hm Hk. rewrite events_try_except. apply Forall_app. split; [done|].
  destruct (result body); [constructor | apply Hk].
Qed.

Lemma calls_on_log P lv msg : calls_on P (events (log lv msg)).
Proof. by repeat constructor. Qed.

Lemma calls_on_ret {A} P (a : A) : calls_on P (events (ret a)).
Proof. constructor. Qed.

Lemma calls_on_select_one (P : nat → Prop) i item sel :
  P i → calls_on P (events (call_select_one i item sel)).
Proof.
  intros Hi. rewrite events_call_select_one.
  repeat constructor. by intros j [= <-].
Qed.

Lemma calls_on_select (P : nat → Prop) i item sel :
  P i → calls_on P (events (call_select (Some i) item sel)).
Proof.
  intros Hi. rewrite events_call_select.
  repeat constructor. by intros j [= <-].
Qed.

Ltac calls_on_step :=
  first
    [ apply calls_on_ret
    | apply calls_on_log
    | by apply calls_on_select_one
    | by apply calls_on_select
    | apply calls_on_bind; [|intros ?]
    | apply calls_on_try_except; [|intros ?] ].

Lemma name_loop_calls i item selectors nm :
  calls_on (λ j, j = i) (events (name_loop i item selectors nm)).
Proof.
  induction selectors as [|sel rest IH]; cbn [name_loop];
    repeat calls_on_step.
  destruct a; [repeat calls_on_step | done].
Qed.

Lemma url_loop_calls i item selectors u :
  calls_on (λ j, j = i) (events (url_loop i item selectors u)).
Proof.
  induction selectors as [|sel rest IH]; cbn [url_loop];
    repeat calls_on_step.
  destruct a as [el|]; [|done].
  destruct (has_attr el "href"); [|done].
  repeat calls_on_step. constructor.
Qed.

Lemma elems_loop_calls i selector els av :
  calls_on (λ j, j = i) (events (elems_loop i selector els av)).
Proof.
  induction els as [|el els IH]; cbn [elems_loop]; repeat calls_on_step.
  destruct (accepted _); [repeat calls_on_step | done].
Qed.

Lemma availability_loop_calls i item selectors av :
  calls_on (λ j, j = i) (events (availability_loop i item selectors av)).
Proof.
  revert av; induction selectors as [|sel rest IH]; intros av;
    cbn [availability_loop]; repeat calls_on_step.
  - unfold try_selector. repeat calls_on_step. apply elems_loop_calls.
  - destruct a.2; [repeat calls_on_step | apply IH].
Qed.

Lemma process_item_calls i item :
  calls_on (λ j, j = i) (events (process_item i item)).
Proof.
  unfold process_item.
  apply calls_on_bind; [apply name_loop_calls | intros nm].
  apply calls_on_bind; [case_bool_decide; calls_on_step | intros _].
  apply calls_on_bind; [apply url_loop_calls | intros u].
  apply calls_on_bind;
    [destruct (not_url u); repeat calls_on_step | intros u'].
  apply calls_on_bind; [by apply calls_on_select_one | intros price_elem].
  apply calls_on_bind; [apply availability_loop_calls | intros av].
  apply calls_on_bind; [case_bool_decide; calls_on_step | intros _].
  apply calls_on_ret.
Qed.

Lemma items_loop_calls i items products :
  calls_on (λ j, i ≤ j < i + length items)
    (events (items_loop i items products)).
Proof.
  revert i products; induction items as [|item rest IH]; intros i products;
    cbn [items_loop]; [apply calls_on_ret|].
  apply calls_on_bind.
  - apply calls_on_try_except.
    + apply calls_on_bind; [|intros ?; apply calls_on_ret].
      apply (calls_on_impl (λ j, j = i)); [|apply process_item_calls].
      intros j ->. rewrite length_cons. lia.
    + intros e. repeat calls_on_step. by repeat constructor.
  - intros products'.
    apply (calls_on_impl (λ j, S i ≤ j < S i + length rest)); [|apply IH].
    intros j Hj. rewrite length_cons. lia.
Qed.

Lemma extract_calls_below_cap BeautifulSoup html_content :
  calls_on (λ j, j < MAX_PRODUCTS)
    (events (extract_product_data BeautifulSoup html_content)).
Proof.
  unfold extract_product_data. case_bool_decide; [constructor|].
  apply calls_on_bind; [constructor | intros soup].
  apply calls_on_bind.
  { unfold call_select. rewrite events_bind. by repeat constructor. }
  intros items. apply calls_on_bind; [apply calls_on_log | intros _].
  apply (calls_on_impl (λ j, 0 ≤ j < 0 + length (take MAX_PRODUCTS items)));
    [|apply items_loop_calls].
  intros j [_ Hj]. rewrite length_take in Hj. lia.
Qed.

Lemma extract_events_unfold BeautifulSoup html_content soup product_items :
  html_content ≠ "" →
  BeautifulSoup html_content = Return soup →
  select soup item_selector = Return product_items →
  events (extract_product_data BeautifulSoup html_content)
  = CallSelect None item_selector
    :: Logged INFO ("Found " +:+ pretty (length product_items)
                    +:+ " product items on the page.")
    :: events (items_loop 0 (take MAX_PRODUCTS product_items) []).
Proof.
  intros Hne Hsoup Hsel. unfold extract_product_data.
  rewrite bool_decide_eq_false_2 by done.
  rewrite events_bind. unfold lift at 1 2. cbn [result events fst snd app].
  rewrite Hsoup. loop_step. rewrite Hsel.
  rewrite events_bind. by cbn [result events log emit fst snd app].
Qed.

(** X5.  What [extract_product_data] does depends on the first
    [MAX_PRODUCTS] (10) product items of the page only: two pages whose
    first 10 product items are the same give the same result and the
    same events, whatever their later items are and would do, but for
    the logged number of items; and the calls to the selector engine
    that follow are for positions below 10. *)
Theorem items_past_cap_untouched BeautifulSoup html1 html2 soup1 soup2
    items1 items2 :
  html1 ≠ "" → html2 ≠ "" →
  BeautifulSoup html1 = Return soup1 →
  BeautifulSoup html2 = Return soup2 →
  select soup1 item_selector = Return items1 →
  select soup2 item_selector = Return items2 →
  take MAX_PRODUCTS items1 = take MAX_PRODUCTS items2 →
  result (extract_product_data BeautifulSoup html1)
  = result (extract_product_data BeautifulSoup html2)
  ∧ ∃ rest,
      events (extract_product_data BeautifulSoup html1)
      = CallSelect None item_selector
        :: Logged INFO ("Found " +:+ pretty (length items1)
                        +:+ " product items on the page.")
        :: rest
      ∧ events (extract_product_data BeautifulSoup html2)
        = CallSelect None item_selector
          :: Logged INFO ("Found " +:+ pretty (length items2)
                          +:+ " product items on the page.")
          :: rest
      ∧ calls_on (λ j, j < MAX_PRODUCTS) rest.
Proof.
  intros Hne1 Hne2 Hsoup1 Hsoup2 Hsel1 Hsel2 Htake. split.
  - rewrite !extract_unfold, !bool_decide_eq_false_2 by done.
    by rewrite Hsoup1, Hsoup2, Hsel1, Hsel2, Htake.
  - exists (events (items_loop 0 (take MAX_PRODUCTS items1) [])).
    rewrite (extract_events_unfold _ _ _ _ Hne1 Hsoup1 Hsel1).
    rewrite (extract_events_unfold _ _ _ _ Hne2 Hsoup2 Hsel2), Htake.
    split; [done|]. split; [done|].
    apply (calls_on_impl
             (λ j, 0 ≤ j < 0 + length (take MAX_PRODUCTS items2)));
      [|apply items_loop_calls].
    intros j [_ Hj]. rewrite length_take in Hj. lia.
Qed.

Lemma items_past_cap_untouched_witness :
  result (extract_product_data parse_pages "<html>twelve</html>")
  = result (extract_product_data parse_pages "<html>ten</html>")
  ∧ length items12 = 12.
Proof.
  split; [|reflexivity].
  apply (items_past_cap_untouched parse_pages "<html>twelve</html>"
           "<html>ten</html>" (document items12)
           (document (take 10 items12)) items12 (take 10 items12));
    try done; by vm_compute.
Defined.

(** ** When the function raises *)

(** X6.  [extract_product_data] raises exactly when the markup is not
    empty and the parser raises or the selection of the product items on
    the parsed document raises, and it raises that very exception; no
    failure inside the processing of an item makes the function raise. *)
Theorem extract_raises_iff BeautifulSoup html_content e :
  result (extract_product_data BeautifulSoup html_content) = Raise e
  ↔ html_content ≠ ""
    ∧ (BeautifulSoup html_content = Raise e
       ∨ ∃ soup, BeautifulSoup html_content = Return soup
                 ∧ select soup item_selector = Raise e).
Proof.
  rewrite extract_unfold. case_bool_decide as Hempty.
  - split; [done | intros [Hne _]; by destruct Hne].
  - destruct (BeautifulSoup html_content) as [soup|e'].
    + destruct (select soup item_selector) as [items|e''] eqn:Hsel.
      * split; [done|].
        intros [_ [Hp | (soup' & Hp & Hsel')]]; [done|]. congruence.
      * split.
        -- intros Hres. split; [done|]. right. exists soup. split; congruence.
        -- intros [_ [Hp | (soup' & Hp & Hsel')]]; [done|]. congruence.
    + split.
      * intros Hres. split; [done|]. left. congruence.
      * intros [_ [Hp | (soup' & Hp & _)]]; [congruence | done].
Qed.

Lemma extract_raises_iff_witness :
  result (extract_product_data parse_fails "<html>")
  = Raise (Exception "markup rejected")
  ∧ result (extract_product_data parse_fails "") = Return []
  ∧ ∃ products,
      result (extract_product_data (parse_as (document [item_broken])) "<html>")
      = Return products.
Proof.
  split; [|split].
  - apply extract_raises_iff. split; [done | by left].
  - reflexivity.
  - destruct (result (extract_product_data
                        (parse_as (document [item_broken])) "<html>"))
      as [products|e] eqn:Hres; [by exists products|].
    apply extract_raises_iff in Hres as [_ [Hparse | (soup & Hparse & Hsel)]].
    + discriminate Hparse.
    + injection Hparse as <-. vm_compute in Hsel. discriminate Hsel.
Defined.

(** ** Acceptance and letter case *)

Lemma lower_length s : String.length (lower s) = String.length s.
Proof. induction s as [|c s IH]; simpl; [done | by rewrite IH]. Qed.

(** X7.  The acceptance test of the availability filter does not depend
    on letter case: two texts with the same lower-case form are both
    accepted or both refused. *)
Theorem accepted_case_insensitive txt1 txt2 :
  lower txt1 = lower txt2 → accepted txt1 = accepted txt2.
Proof.
  intros Hlow. unfold accepted. rewrite Hlow.
  by rewrite <- (lower_length txt1), Hlow, lower_length.
Qed.

Lemma accepted_case_insensitive_witness :
  accepted "IN STOCK" = accepted "in stock" ∧ accepted "In Stock" = true.
Proof.
  split; [|reflexivity].
  apply accepted_case_insensitive. reflexivity.
Defined.

(** * The search URL *)

Import UrlLib.

Lemma build_search_url_unfold search_term :
  build_search_url search_term
  = "https://www.amazon.com/s?k=" +:+ quote_plus search_term
    +:+ "&ref=nb_sb_noss".
Proof. reflexivity. Qed.

Lemma chars_app s t :
  String.list_ascii_of_string (s +:+ t)
  = String.list_ascii_of_string s ++ String.list_ascii_of_string t.
Proof.
  induction s as [|c s IH]; [done|]. rewrite str_app_cons. simpl.
  by rewrite IH.
Qed.

Lemma quote_plus_char_chars c :
  forallb query_char (String.list_ascii_of_string (quote_plus_char c)) = true.
Proof. destruct c as [[] [] [] [] [] [] [] []]; reflexivity. Qed.

Lemma quote_plus_chars s :
  forallb query_char (String.list_ascii_of_string (quote_plus s)) = true.
Proof.
  induction s as [|c s IH]; [done|]. cbn [quote_plus].
  by rewrite chars_app, forallb_app, quote_plus_char_chars, IH.
Qed.

(** X8.  The search URL is the base URL, then [?k=], the encoded search
    term and [&ref=nb_sb_noss].  The encoded term is made of letters,
    digits, [_.-~], [+] and [%] only; so it holds no space, and none of
    [& = # ? /], whatever the search term. *)
Theorem search_url_shape search_term :
  build_search_url search_term
  = BASE_URL +:+ "?k=" +:+ quote_plus search_term +:+ "&ref=nb_sb_noss"
  ∧ forallb query_char (String.list_ascii_of_string (quote_plus search_term))
    = true
  ∧ ∀ c, c ∈ [" "; "&"; "="; "#"; "?"; "/"]%char →
         c ∉ String.list_ascii_of_string (quote_plus search_term).
Proof.
  split; [reflexivity|]. split; [apply quote_plus_chars|].
  intros c Hc Hin.
  pose proof (quote_plus_chars search_term) as Hall.
  rewrite forallb_forall in Hall. apply list_elem_of_In, Hall in Hin.
  repeat (apply elem_of_cons in Hc as [-> | Hc]; [discriminate Hin|]).
  by apply elem_of_nil in Hc.
Qed.

Lemma search_url_shape_witness :
  build_search_url "usb-c cable & hub"
  = "https://www.amazon.com/s?k=usb-c+cable+%26+hub&ref=nb_sb_noss".
Proof.
  destruct (search_url_shape "usb-c cable & hub") as [-> _]. reflexivity.
Defined.

Lemma unquote_head_quote c r :
  unquote_head (quote_plus_char c +:+ r) = Some (c, r).
Proof. destruct c as [[] [] [] [] [] [] [] []]; reflexivity. Qed.

Lemma quote_plus_inj s t : quote_plus s = quote_plus t → s = t.
Proof.
  revert t; induction s as [|c s IH]; intros [|d t]; cbn [quote_plus];
    intros Heq; [done| | |].
  - apply (f_equal unquote_head) in Heq.
    by rewrite unquote_head_quote in Heq.
  - apply (f_equal unquote_head) in Heq.
    by rewrite unquote_head_quote in Heq.
  - apply (f_equal unquote_head) in Heq.
    rewrite !unquote_head_quote in Heq. injection Heq as -> Heq.
    by rewrite (IH _ Heq).
Qed.

Lemma str_app_cancel_r s t w : s +:+ w = t +:+ w → s = t.
Proof.
  revert t; induction s as [|c s IH]; intros [|d t] Heq.
  - done.
  - apply (f_equal String.length) in Heq.
    rewrite !str_length_app in Heq. simpl in Heq. lia.
  - apply (f_equal String.length) in Heq.
    rewrite !str_length_app in Heq. simpl in Heq. lia.
  - rewrite !str_app_cons in Heq. injection Heq as -> Heq.
    by rewrite (IH _ Heq).
Qed.

(** X9.  Two different search terms never give the same search URL. *)
Theorem search_url_injective term1 term2 :
  build_search_url term1 = build_search_url term2 → term1 = term2.
Proof.
  rewrite !build_search_url_unfold. intros Heq.
  apply String.app_inj, str_app_cancel_r in Heq.
  by apply quote_plus_inj.
Qed.

Lemma search_url_injective_witness : "a+b" = "a+b".
Proof.
  apply (search_url_injective "a+b" "a+b"). reflexivity.
Defined.

(** * The command-line program *)

(** ** The program's writer monad *)

Section IOFacts.
Context {A B : Type}.
Implicit Types (m : IO A) (k : A → IO B) (P : io_event → bool).

Lemma io_result_bind m k :
  io_result (io_bind m k)
  = match io_result m with
    | Done a => io_result (k a)
    | Throw s => Throw s
    end.
Proof. destruct m as [[a|s] evs]; simpl; [by destruct (k a) | done]. Qed.

Lemma io_events_bind m k :
  io_events (io_bind m k)
  = io_events m
    ++ match io_result m with Done a => io_events (k a) | Throw _ => [] end.
Proof.
  destruct m as [[a|s] evs]; simpl; [by destruct (k a) | by rewrite app_nil_r].
Qed.

Lemma filter_io_bind P m k :
  List.filter P (io_events (io_bind m k))
  = List.filter P (io_events m)
    ++ match io_result m with
       | Done a => List.filter P (io_events (k a))
       | Throw _ => []
       end.
Proof.
  rewrite io_events_bind, List.filter_app. by destruct (io_result m).
Qed.


Lemma filter_io_try_except P (body : IO A) h :
  List.filter P (io_events (io_try_except body h))
  = List.filter P (io_events body)
    ++ match io_result body with
       | Throw (Error e) => List.filter P (io_events (h e))
       | _ => []
       end.
Proof.
  destruct body as [[a|[e|]] evs]; simpl; rewrite ?app_nil_r; [done| |done].
  destruct (h e). simpl. by rewrite List.filter_app.
Qed.

Lemma io_result_try_except2 (body : IO A) i h :
  io_result (io_try_except2 body i h)
  = match io_result body with
    | Done a => Done a
    | Throw KeyboardInterrupt => io_result i
    | Throw (Error e) => io_result (h e)
    end.
Proof.
  destruct body as [[a|[e|]] evs]; simpl;
    [done | by destruct (h e) | by destruct i].
Qed.

Lemma filter_io_try_except2 P (body : IO A) i h :
  List.filter P (io_events (io_try_except2 body i h))
  = List.filter P (io_events body)
    ++ match io_result body with
       | Done _ => []
       | Throw KeyboardInterrupt => List.filter P (io_events i)
       | Throw (Error e) => List.filter P (io_events (h e))
       end.
Proof.
  destruct body as [[a|[e|]] evs]; simpl; rewrite ?app_nil_r; [done| |].
  - destruct (h e). simpl. by rewrite List.filter_app.
  - destruct i. simpl. by rewrite List.filter_app.
Qed.
End IOFacts.

Lemma filter_run_extraction {A} (P : io_event → bool) (m : M A) :
  (∀ ev, P (Extraction ev) = false) →
  List.filter P (io_events (run_extraction m)) = [].
Proof.
  intros HP. unfold run_extraction, io_events. cbn [snd].
  induction (events m) as [|ev evs IH]; [done|].
  rewrite fmap_cons. cbn [List.filter]. by rewrite HP.
Qed.

Lemma io_result_run_extraction {A} (m : M A) :
  io_result (run_extraction m)
  = match result m with Return a => Done a | Raise e => Throw (Error e) end.
Proof. reflexivity. Qed.


Lemma filter_io_emit_false (P : io_event → bool) ev :
  P ev = false → List.filter P (io_events (io_emit ev)) = [].
Proof. intros HP. unfold io_emit, io_events. cbn [snd List.filter]. by rewrite HP. Qed.

Lemma io_result_console w markup :
  io_result (console w markup) = console_print w markup.
Proof. reflexivity. Qed.

Lemma io_events_console w markup :
  io_events (console w markup) = [ConsoleText markup].
Proof. unfold console. rewrite io_events_bind. reflexivity. Qed.

Lemma filter_console (P : io_event → bool) w markup :
  (∀ txt, P (ConsoleText txt) = false) →
  List.filter P (io_events (console w markup)) = [].
Proof. intros HC. rewrite io_events_console. cbn. by rewrite HC. Qed.

(** ** [save_product_links] *)












Lemma filter_write (P : io_event → bool) w n text :
  (∀ txt, P (FileWrite txt) = false) →
  List.filter P (io_events (write w n text)) = [].
Proof.
  intros HW. unfold write. rewrite filter_io_bind.
  cbn [io_result io_emit fst]. rewrite filter_io_emit_false by apply HW.
  by destruct (file_write w n text).
Qed.

Lemma filter_write_products (P : io_event → bool) w i n products :
  (∀ txt, P (FileWrite txt) = false) →
  List.filter P (io_events (write_products w i n products)) = [].
Proof.
  intros HW. revert i n; induction products as [|p rest IH]; intros i n;
    [done|].
  cbn [write_products]. rewrite !filter_io_bind, !filter_write, IH by done.
  cbn [app]. by repeat destruct (io_result (write _ _ _)).
Qed.

Lemma io_events_closing w body :
  io_events (closing w body) = io_events body ++ [FileClose].
Proof. by destruct body. Qed.

Lemma filter_save (P : io_event → bool) w products search_term :
  (∀ txt, P (Stdout txt) = false) → (∀ msg, P (LogInfo msg) = false) →
  (∀ msg, P (LogError msg) = false) → (∀ path, P (FileOpen path) = false) →
  (∀ txt, P (FileWrite txt) = false) → P FileClose = false →
  List.filter P (io_events (save_product_links w products search_term)) = [].
Proof.
  intros HO HI HE HF HW HCl. unfold save_product_links.
  rewrite filter_io_try_except.
  assert (∀ X : list io_event, ∀ r : completion unit,
    X = [] →
    X ++ match r with
         | Throw (Error e) =>
             List.filter P (io_events
               (io_emit (LogError ("Failed to save product links: "
                                   +:+ str_exn e)) ;;~
                io_emit (Stdout (nl +:+ "Error saving product links: "
                                 +:+ str_exn e))))
         | _ => []
         end = []) as Hhandler.
  { intros X r ->. destruct r as [|[e|]]; [done| |done].
    rewrite filter_io_bind. cbn [io_result io_emit fst].
    by rewrite !filter_io_emit_false by (apply HE || apply HO). }
  apply Hhandler.
  rewrite !filter_io_bind. cbn [io_result io_emit fst].
  rewrite filter_io_emit_false by apply HF.
  destruct (open_file w _) as [[]|e]; cbn [io_result io_events io_outcome fst snd List.filter app]; [|done].
  rewrite io_events_closing, List.filter_app, !filter_io_bind, !filter_write,
    filter_write_products by done.
  rewrite !filter_io_emit_false by (apply HI || apply HO).
  cbn [List.filter app]. rewrite HCl.
  repeat destruct (io_result _); by rewrite ?app_nil_r.
Qed.

(** ** [main] *)

Lemma io_result_fetch w search_term :
  io_result (fetch_search_results w search_term)
  = match sleep w with
    | Throw s => Throw s
    | Done _ =>
        match requests_get w (build_search_url search_term) (get_headers w)
        with
        | Response txt => Done (Some txt)
        | RequestException _ => Done None
        | Crash s => Throw s
        end
    end.
Proof.
  unfold fetch_search_results. rewrite !io_result_bind.
  cbn [io_result io_emit io_lift fst]. destruct (sleep w); [|done].
  by destruct (requests_get w _ _).
Qed.

Lemma filter_fetch (P : io_event → bool) w search_term :
  P Sleep = false → (∀ txt, P (Stdout txt) = false) →
  List.filter P (io_events (fetch_search_results w search_term))
  = match sleep w with
    | Throw _ => []
    | Done _ =>
        List.filter P
          [HttpGet (build_search_url search_term) (get_headers w)]
    end.
Proof.
  intros HS HO. unfold fetch_search_results. rewrite !filter_io_bind.
  cbn [io_result io_emit io_lift fst]. rewrite (filter_io_emit_false P Sleep HS).
  unfold io_lift at 1. cbn [io_events snd List.filter app].
  destruct (sleep w); [|done].
  destruct (requests_get w _ _); rewrite ?filter_io_bind;
    cbn [io_result io_emit fst]; rewrite ?filter_io_emit_false by apply HO;
    unfold io_emit, io_ret, io_lift, io_events; cbn [snd List.filter app];
    rewrite ?HO; by rewrite ?app_nil_r.
Qed.

Lemma filter_show_help (P : io_event → bool) :
  (∀ txt, P (Stdout txt) = false) →
  List.filter P (io_events show_help) = [].
Proof.
  intros HO. unfold show_help. rewrite !filter_io_bind.
  cbn [io_result io_emit fst]. by rewrite !filter_io_emit_false by apply HO.
Qed.

Lemma filter_handlers (P : io_event → bool) w (r : completion unit)
    (X : list io_event) :
  (∀ txt, P (ConsoleText txt) = false) →
  X ++ match r with
       | Done _ => []
       | Throw KeyboardInterrupt =>
           List.filter P (io_events (console w cancelled))
       | Throw (Error e) =>
           List.filter P (io_events (console w (unexpected e)))
       end = X.
Proof.
  intros HC. destruct r as [|[e|]]; rewrite ?filter_console by done;
    by rewrite app_nil_r.
Qed.

Lemma main_filter (P : io_event → bool) w :
  (∀ txt, P (Stdout txt) = false) → (∀ txt, P (ConsoleText txt) = false) →
  (∀ txt, P (Prompt txt) = false) → P Sleep = false →
  (∀ msg, P (LogInfo msg) = false) → (∀ ev, P (Extraction ev) = false) →
  List.filter P (io_events (main w))
  = if bool_decide ("--help" ∈ argv w) then []
    else
      match console_print w banner, user_input w with
      | Done _, Done line =>
          if bool_decide (strip line = "") then []
          else
            match console_print w (searching (strip line)),
                  console_print w few_seconds, sleep w with
            | Done _, Done _, Done _ =>
                List.filter P
                  [HttpGet (build_search_url (strip line)) (get_headers w)]
                ++ match requests_get w (build_search_url (strip line))
                           (get_headers w) with
                   | Response html =>
                       if bool_decide (html = "") then []
                       else
                         match
                           result (extract_product_data (BeautifulSoup w) html)
                         with
                         | Return products =>
                             List.filter P
                               (io_events (display_products w products))
                             ++ match io_result (display_products w products),
                                      products with
                                | Done _, _ :: _ =>
                                    List.filter P
                                      (io_events
                                         (save_product_links w products
                                            (strip line)))
                                | _, _ => []
                                end
                         | Raise _ => []
                         end
                   | _ => []
                   end
            | _, _, _ => []
            end
      | _, _ => []
      end.
Proof.
  intros HO HC HPr HS HI HX. unfold main.
  case_bool_decide; [by apply filter_show_help|].
  rewrite ?filter_io_bind, ?io_result_bind.
  replace (io_result (if bool_decide ("--verbose" ∈ argv w)
                      then io_emit (Stdout "Verbose logging enabled")
                      else io_ret ()))
    with (Done (A:=unit) ()) by (by case_bool_decide).
  replace (List.filter P (io_events
             (if bool_decide ("--verbose" ∈ argv w)
              then io_emit (Stdout "Verbose logging enabled")
              else io_ret ())))
    with (@nil io_event)
    by (case_bool_decide; [by rewrite filter_io_emit_false | done]).
  rewrite filter_console, io_result_console by done. cbn [app].
  destruct (console_print w banner) as [[]|s0]; [|done].
  rewrite filter_io_try_except2, filter_handlers by done.
  unfold main_body. rewrite ?filter_io_bind, ?io_result_bind.
  cbn [io_result io_emit fst]. rewrite filter_io_emit_false by apply HPr.
  unfold io_lift at 1 2. cbn [io_result io_events fst snd List.filter app].
  destruct (user_input w) as [line|s]; [|done].
  case_bool_decide; [by rewrite filter_console|].
  rewrite ?filter_io_bind, ?io_result_bind.
  rewrite !filter_console, !io_result_console by done. cbn [app].
  destruct (console_print w (searching (strip line))) as [[]|s1]; [|done].
  destruct (console_print w few_seconds) as [[]|s2]; [|done].
  rewrite (filter_fetch P w _ HS HO), io_result_fetch.
  destruct (sleep w) as [[]|s3]; [|done]. f_equal.
  destruct (requests_get w _ _) as [html| |]; cbn [not_html];
    [|by rewrite filter_console | done].
  case_bool_decide; [by rewrite filter_console|].
  rewrite ?filter_io_bind, ?io_result_bind. cbn [io_result io_emit fst].
  rewrite filter_io_emit_false by apply HI.
  rewrite (filter_run_extraction P _ HX), io_result_run_extraction.
  cbn [from_option id app].
  destruct (result (extract_product_data (BeautifulSoup w) html))
    as [products|e]; [|done].
  rewrite ?filter_io_bind, ?io_result_bind. cbn [io_result io_emit fst].
  rewrite filter_io_emit_false by apply HI. cbn [app]. f_equal.
  destruct (io_result (display_products w products)) as [[]|]; [|by destruct products].
  by destruct products.
Qed.
